(** * pH7Console icon generator: [src-tauri/icons/create_icon.py]

    A shallow embedding of the script and the properties of it that the
    specification states.  The script has two functions:

    - [create_terminal_icon size] allocates a transparent RGBA canvas and
      draws a terminal window on it through the imaging library;
    - [main] renders six sizes, saves each under one or more file names and
      lists the PNG files of the working directory.

    The script is embedded in a state-and-exception monad [Py] over a [World]
    (object heap, working directory, standard output, call trace).  The imaging
    library and the operating system are not part of the repository: the
    record [Pillow] holds what the script observes of them (which font files
    load, how shapes and text rasterise, how an image is encoded, which
    allocations, file names and output lines fail).  Canvas updates, the heap, the directory and the
    exception flow are modelled concretely. *)

From Stdlib Require Import ZArith String Ascii List Lia DecimalString Strings.Byte.
From Stdlib Require Import Floats.PrimFloat Floats.FloatOps Floats.SpecFloat.
From Stdlib Require Numbers.Cyclic.Int63.Uint63.
From stdpp Require Import base option list gmap strings.

Open Scope string_scope.
Open Scope Z_scope.

(** * The model *)

(** ** Python values *)

(** Python numbers as the script uses them: unbounded [int] and binary64
    [float].  [font.getlength] returns a float and [0.6] is a float literal;
    every other quantity of the script is an int. *)
Inductive pynum : Type :=
| PInt (z : Z)
| PFloat (f : float).

(** [float(z)] for an int of magnitude below 2^63 (every int the script
    converts is a small pixel count). *)
Definition float_of_Z (z : Z) : float :=
  if z <? 0 then PrimFloat.opp (PrimFloat.of_uint63 (Uint63.of_Z (- z)))
  else PrimFloat.of_uint63 (Uint63.of_Z z).

Definition to_float (n : pynum) : float :=
  match n with
  | PInt z => float_of_Z z
  | PFloat f => f
  end.

(** [a + b] and [a * b]: int arithmetic on two ints, float arithmetic as soon
    as one operand is a float. *)
Definition py_add (a b : pynum) : pynum :=
  match a, b with
  | PInt x, PInt y => PInt (x + y)
  | _, _ => PFloat (PrimFloat.add (to_float a) (to_float b))
  end.

Definition py_mul (a b : pynum) : pynum :=
  match a, b with
  | PInt x, PInt y => PInt (x * y)
  | _, _ => PFloat (PrimFloat.mul (to_float a) (to_float b))
  end.

(** The integer part of a float (toward zero), as a C cast to [int] takes it;
    infinities and NaN are sent to 0. *)
Definition float_trunc (f : float) : Z :=
  match Prim2SF f with
  | S754_finite s m e =>
      let v := if 0 <=? e then Z.pos m * 2 ^ e else Z.pos m / 2 ^ (- e) in
      if s then - v else v
  | _ => 0
  end.

Definition py_trunc (n : pynum) : Z :=
  match n with
  | PInt z => z
  | PFloat f => float_trunc f
  end.

(** [str(z)] for an int, as an f-string formats it. *)
Definition pystr (z : Z) : string := NilZero.string_of_int (Z.to_int z).

(** [len(s)] for the ASCII strings the script measures. *)
Definition pylen (s : string) : Z := Z.of_nat (String.length s).

(** [s.endswith(suffix)]. *)
Definition endswith (s suffix : string) : bool :=
  let n := String.length s in
  let k := String.length suffix in
  if (k <=? n)%nat then String.eqb (String.substring (n - k) k s) suffix
  else false.

(** ** Exceptions *)

Inductive exn : Type := Exn (name : string).

Inductive result (A : Type) : Type :=
| Ok (a : A)
| Raise (e : exn).
Arguments Ok {A} a.
Arguments Raise {A} e.

Definition is_ok {A} (r : result A) : bool :=
  match r with Ok _ => true | Raise _ => false end.

(** ** Images, fonts and the world *)

Definition rgba : Type := Z * Z * Z * Z.

Definition alpha (c : rgba) : Z := snd c.

(** A coordinate list [[x0, y0, x1, y1]]. *)
Record box : Type := Box { bx0 : pynum; by0 : pynum; bx1 : pynum; by1 : pynum }.

(** A font object: a TrueType face loaded from a path at a pixel size, or the
    library's built-in default face (which has a size of its own). *)
Inductive Font : Type :=
| TrueType (path : string) (size : Z)
| DefaultFont.

(** An image object: mode, dimensions and pixel buffer.  [im_data x y] is
    only meaningful for [0 <= x < im_width], [0 <= y < im_height]. *)
Record Image : Type := {
  im_mode : string;
  im_width : Z;
  im_height : Z;
  im_data : Z -> Z -> rgba
}.

Definition in_canvas (img : Image) (x y : Z) : bool :=
  (0 <=? x) && (x <? im_width img) && (0 <=? y) && (y <? im_height img).

(** Python objects are references; [Image.new] allocates one. *)
Definition ref : Type := nat.

(** One entry per call into the library or the operating system, in call
    order. *)
Inductive event : Type :=
| EvImageNew (r : ref) (mode : string) (w h : Z) (color : rgba)
| EvDraw (r : ref)
| EvRoundedRectangle (r : ref) (xy : box) (radius : Z)
    (fill : option rgba) (outline : option rgba) (width : Z)
| EvEllipse (r : ref) (xy : box) (fill : rgba)
| EvRectangle (r : ref) (xy : box) (fill : rgba)
| EvText (r : ref) (xy : pynum * pynum) (text : string) (fill : rgba) (font : Font)
| EvTruetype (path : string) (size : Z)
| EvLoadDefault
| EvGetlength (font : Font) (text : string)
| EvSave (r : ref) (name : string) (format : string)
| EvListdir
| EvPrint (line : string).

Record World : Type := {
  heap : gmap nat Image;
  files : gmap string (list byte);
  stdout : list string;
  trace : list event
}.

(** ** The library and the operating system, as the script observes them *)

Record Pillow : Type := {
  (** [Image.new(mode, (w, h), color)] with dimensions that are not negative:
      [Some e] when the allocation raises [e] (OverflowError from 2^31 on,
      MemoryError when the buffer cannot be had). *)
  new_error : Z -> Z -> option exn;
  (** [ImageFont.truetype(path, size)]: [Some e] when loading raises [e]. *)
  truetype_error : string -> Z -> option exn;
  (** [font.getlength(text)]. *)
  getlength : Font -> string -> result float;
  (** Rasterisers.  A shape yields, per pixel, the colour it writes there (or
      [None] where it leaves the pixel alone); text yields a coverage 0..255
      that is blended with the ink.  Each may raise instead. *)
  rounded_rectangle_mask :
    box -> Z -> option rgba -> option rgba -> Z -> result (Z -> Z -> option rgba);
  ellipse_mask : box -> rgba -> result (Z -> Z -> option rgba);
  rectangle_mask : box -> rgba -> result (Z -> Z -> option rgba);
  text_mask : Font -> string -> pynum * pynum -> result (Z -> Z -> Z);
  (** The encoder [Image.save] runs for a format name, and the decoder of
      PNG files. *)
  encode : string -> Image -> result (list byte);
  png_decode : list byte -> option Image;
  (** Opening a file of the working directory for writing: [Some e] when it
      raises [e]. *)
  write_error : string -> option exn;
  (** [print(line)]: [Some e] when writing the line to standard output raises
      [e] (a name the stream cannot encode, a closed stream). *)
  print_error : string -> option exn;
  (** [os.listdir('.')]: [Some e] when reading the working directory raises
      [e]. *)
  listdir_error : option exn
}.

(** ** The monad of the script: world passing with exceptions

    A raised exception keeps the world reached so far: nothing is rolled
    back when a handler catches it. *)

Definition Py (A : Type) : Type := World -> World * result A.

Definition ret {A} (a : A) : Py A := fun w => (w, Ok a).

Definition raise {A} (e : exn) : Py A := fun w => (w, Raise e).

Definition bind {A B} (m : Py A) (k : A -> Py B) : Py B :=
  fun w =>
    match m w with
    | (w', Ok a) => k a w'
    | (w', Raise e) => (w', Raise e)
    end.

(** [try: m except: handler] with a bare [except], which catches every
    exception. *)
Definition try_except {A} (m handler : Py A) : Py A :=
  fun w =>
    match m w with
    | (w', Ok a) => (w', Ok a)
    | (w', Raise _) => handler w'
    end.

Definition lift {A} (r : result A) : Py A := fun w => (w, r).

Declare Scope py_scope.
Delimit Scope py_scope with py.
Notation "x <- m ;; k" := (bind m (fun x => k))
  (at level 100, m at next level, right associativity) : py_scope.
Notation "m ;; k" := (bind m (fun _ => k))
  (at level 100, right associativity) : py_scope.
Open Scope py_scope.

(** [for x in l: body(x)]. *)
Fixpoint for_each {A} (l : list A) (body : A -> Py unit) : Py unit :=
  match l with
  | [] => ret tt
  | x :: l' => body x ;; for_each l' body
  end.

Definition set_heap (h : gmap nat Image) (w : World) : World :=
  {| heap := h; files := files w; stdout := stdout w; trace := trace w |}.

Definition set_files (f : gmap string (list byte)) (w : World) : World :=
  {| heap := heap w; files := f; stdout := stdout w; trace := trace w |}.

Definition log (e : event) : Py unit :=
  fun w =>
    ({| heap := heap w; files := files w; stdout := stdout w;
        trace := (trace w ++ [e])%list |}, Ok tt).

(** Reading and updating the object behind a reference.  A reference handed
    out by [Image.new] is always live; the error branch is never taken by the
    script. *)
Definition deref (r : ref) : Py Image :=
  fun w =>
    match heap w !! r with
    | Some img => (w, Ok img)
    | None => (w, Raise (Exn "ReferenceError"))
    end.

Definition update_image (r : ref) (f : Image -> Image) : Py unit :=
  img <- deref r ;;
  fun w => (set_heap (<[r := f img]> (heap w)) w, Ok tt).

(** ** Canvas updates *)

(** A shape writes its colour over the pixels it covers, inside the canvas;
    size and mode of the image never change. *)
Definition put (m : Z -> Z -> option rgba) (img : Image) : Image :=
  {| im_mode := im_mode img;
     im_width := im_width img;
     im_height := im_height img;
     im_data := fun x y =>
       if in_canvas img x y then
         match m x y with
         | Some c => c
         | None => im_data img x y
         end
       else im_data img x y |}.

(** Rounded division by 255 as the library computes it on bytes. *)
Definition div255 (a : Z) : Z :=
  let t := a + 128 in Z.shiftr (Z.shiftr t 8 + t) 8.

Definition blend_channel (m old ink : Z) : Z :=
  div255 (old * (255 - m) + ink * m).

Definition blend (m : Z) (old ink : rgba) : rgba :=
  match old, ink with
  | (r0, g0, b0, a0), (r1, g1, b1, a1) =>
      (blend_channel m r0 r1, blend_channel m g0 g1,
       blend_channel m b0 b1, blend_channel m a0 a1)
  end.

(** Text is pasted through its coverage mask: every band of a pixel,
    alpha included, moves from the old value toward the ink. *)
Definition put_text (cov : Z -> Z -> Z) (ink : rgba) (img : Image) : Image :=
  {| im_mode := im_mode img;
     im_width := im_width img;
     im_height := im_height img;
     im_data := fun x y =>
       if in_canvas img x y then blend (cov x y) (im_data img x y) ink
       else im_data img x y |}.

(** ** Calls into the library and the operating system *)

(** The handle [ImageDraw.Draw(img)] returns: it draws into [img] itself. *)
Record Draw : Type := { draw_im : ref }.

Section Script.

Variable env : Pillow.

(** [Image.new(mode, (w, h), color)]: a fresh object filled with [color].
    A negative dimension is refused with ValueError; the allocation itself
    may fail. *)
Definition Image_new (mode : string) (size : Z * Z) (color : rgba) : Py ref :=
  fun w =>
    let r := fresh (dom (heap w)) in
    let '(wd, ht) := size in
    (log (EvImageNew r mode wd ht color) ;;
     if (wd <? 0) || (ht <? 0) then raise (Exn "ValueError")
     else
       match new_error env wd ht with
       | Some e => raise e
       | None =>
           fun w' =>
             (set_heap (<[r := {| im_mode := mode; im_width := wd; im_height := ht;
                                  im_data := fun _ _ => color |}]> (heap w')) w',
              Ok r)
       end) w.

Definition ImageDraw_Draw (img : ref) : Py Draw :=
  log (EvDraw img) ;; ret {| draw_im := img |}.

Definition draw_rounded_rectangle (d : Draw) (xy : box) (radius : Z)
    (fill outline : option rgba) (width : Z) : Py unit :=
  log (EvRoundedRectangle (draw_im d) xy radius fill outline width) ;;
  m <- lift (rounded_rectangle_mask env xy radius fill outline width) ;;
  update_image (draw_im d) (put m).

Definition draw_ellipse (d : Draw) (xy : box) (fill : rgba) : Py unit :=
  log (EvEllipse (draw_im d) xy fill) ;;
  m <- lift (ellipse_mask env xy fill) ;;
  update_image (draw_im d) (put m).

Definition draw_rectangle (d : Draw) (xy : box) (fill : rgba) : Py unit :=
  log (EvRectangle (draw_im d) xy fill) ;;
  m <- lift (rectangle_mask env xy fill) ;;
  update_image (draw_im d) (put m).

Definition draw_text (d : Draw) (xy : pynum * pynum) (text : string)
    (fill : rgba) (font : Font) : Py unit :=
  log (EvText (draw_im d) xy text fill font) ;;
  cov <- lift (text_mask env font text xy) ;;
  update_image (draw_im d) (put_text cov fill).

Definition ImageFont_truetype (path : string) (size : Z) : Py Font :=
  log (EvTruetype path size) ;;
  match truetype_error env path size with
  | Some e => raise e
  | None => ret (TrueType path size)
  end.

(** [ImageFont.load_default()] reads no file: the face is part of the
    library. *)
Definition ImageFont_load_default : Py Font :=
  log EvLoadDefault ;; ret DefaultFont.

Definition font_getlength (font : Font) (text : string) : Py pynum :=
  log (EvGetlength font text) ;;
  l <- lift (getlength env font text) ;;
  ret (PFloat l).

(** [img.save(name, format)]: open the file for writing, encode, write. *)
Definition Image_save (img : ref) (name format : string) : Py unit :=
  log (EvSave img name format) ;;
  im <- deref img ;;
  match write_error env name with
  | Some e => raise e
  | None =>
      data <- lift (encode env format im) ;;
      fun w => (set_files (<[name := data]> (files w)) w, Ok tt)
  end.

(** [print(line)]: the line is appended to standard output, unless writing
    it raises. *)
Definition print (line : string) : Py unit :=
  log (EvPrint line) ;;
  match print_error env line with
  | Some e => raise e
  | None =>
      fun w =>
        ({| heap := heap w; files := files w; stdout := (stdout w ++ [line])%list;
            trace := trace w |}, Ok tt)
  end.

(** [os.listdir('.')]: the names of the working directory, in the order the
    directory yields them. *)
Definition os_listdir : Py (list string) :=
  log EvListdir ;;
  match listdir_error env with
  | Some e => raise e
  | None => fun w => (w, Ok (map fst (map_to_list (files w))))
  end.

(** ** The script *)

Definition monaco_path : string := "/System/Library/Fonts/Monaco.ttc".

Definition dejavu_path : string :=
  "/usr/share/fonts/truetype/dejavu/DejaVuSansMono.ttf".

(** The Python literal [0.6]: the binary64 value nearest to 6/10. *)
Definition f0_6 : float := 0x1.3333333333333p-1%float.

(** Lines 46: [font_size = max(12, size // 25)]. *)
Definition font_size_of (size : Z) : Z := Z.max 12 (size / 25).

(** Lines 48-55: the nested [try]/[except] that picks the text font. *)
Definition select_font (font_size : Z) : Py Font :=
  try_except (ImageFont_truetype monaco_path font_size)
    (try_except (ImageFont_truetype dejavu_path font_size)
       ImageFont_load_default).

(** Lines 62-65 and 70-73: [font.getlength(text)], or an estimate of 0.6 em
    per character when that raises. *)
Definition text_width (font : Font) (text : string) (font_size : Z) : Py pynum :=
  try_except (font_getlength font text)
    (ret (py_mul (py_mul (PInt (pylen text)) (PInt font_size)) (PFloat f0_6))).

Definition create_terminal_icon (size : Z) : Py ref :=
  img <- Image_new "RGBA" (size, size) (0, 0, 0, 0) ;;
  draw <- ImageDraw_Draw img ;;
  let bg_color := (26, 27, 38, 255) in
  let border_color := (80, 250, 123, 255) in
  let text_color := (248, 248, 242, 255) in
  let cursor_color := (80, 250, 123, 255) in
  let margin := size / 10 in
  let terminal_rect :=
    Box (PInt margin) (PInt margin) (PInt (size - margin)) (PInt (size - margin)) in
  draw_rounded_rectangle draw terminal_rect (size / 20)
    (Some bg_color) (Some border_color) 3 ;;
  let title_bar_height := size / 8 in
  let title_bar_rect :=
    Box (PInt (margin + 3)) (PInt (margin + 3))
        (PInt (size - margin - 3)) (PInt (margin + 3 + title_bar_height)) in
  draw_rounded_rectangle draw title_bar_rect (size / 30)
    (Some (40, 42, 54, 255)) None 1 ;;
  let control_size := size / 30 in
  let control_y := margin + title_bar_height / 2 in
  draw_ellipse draw
    (Box (PInt (margin + 20)) (PInt (control_y - control_size / 2))
         (PInt (margin + 20 + control_size)) (PInt (control_y + control_size / 2)))
    (255, 85, 85, 255) ;;
  draw_ellipse draw
    (Box (PInt (margin + 20 + control_size * 2)) (PInt (control_y - control_size / 2))
         (PInt (margin + 20 + control_size * 3)) (PInt (control_y + control_size / 2)))
    (255, 184, 108, 255) ;;
  draw_ellipse draw
    (Box (PInt (margin + 20 + control_size * 4)) (PInt (control_y - control_size / 2))
         (PInt (margin + 20 + control_size * 5)) (PInt (control_y + control_size / 2)))
    (80, 250, 123, 255) ;;
  let content_y := margin + title_bar_height + 10 in
  let line_height := size / 20 in
  let prompt_text := "$ " in
  let command_text := "pH7Console --ai" in
  let font_size := font_size_of size in
  font <- select_font font_size ;;
  let y_pos := content_y in
  draw_text draw (PInt (margin + 20), PInt y_pos) prompt_text cursor_color font ;;
  prompt_width <- text_width font prompt_text font_size ;;
  draw_text draw (py_add (PInt (margin + 20)) prompt_width, PInt y_pos)
    command_text text_color font ;;
  total_width <- text_width font (prompt_text +:+ command_text) font_size ;;
  let cursor_x := py_add (py_add (PInt (margin + 20)) total_width) (PInt 5) in
  draw_rectangle draw
    (Box cursor_x (PInt y_pos) (py_add cursor_x (PInt 2)) (PInt (y_pos + font_size)))
    cursor_color ;;
  let ai_y := y_pos + line_height + 10 in
  let ai_text := "🤖 AI Ready" in
  draw_text draw (PInt (margin + 20), PInt ai_y) ai_text cursor_color font ;;
  let logo_y := ai_y + line_height + 10 in
  let logo_text := "pH7" in
  logo_font <- try_except (ImageFont_truetype monaco_path (font_size + 4)) (ret font) ;;
  draw_text draw (PInt (margin + 20), PInt logo_y) logo_text border_color logo_font ;;
  ret img.

Definition sizes : list Z := [16; 32; 64; 128; 256; 512].

(** The body of the loop of [main] (lines 100-112). *)
Definition main_body (size : Z) : Py unit :=
  icon <- create_terminal_icon size ;;
  Image_save icon ("icon_" +:+ pystr size +:+ "x" +:+ pystr size +:+ ".png") "PNG" ;;
  if size =? 32 then
    Image_save icon "32x32.png" "PNG"
  else if size =? 128 then
    (Image_save icon "128x128.png" "PNG" ;;
     Image_save icon "128x128@2x.png" "PNG")
  else if size =? 512 then
    Image_save icon "icon.png" "PNG"
  else ret tt.

Definition main : Py unit :=
  for_each sizes main_body ;;
  print "Icons created successfully!" ;;
  print "Files created:" ;;
  names <- os_listdir ;;
  for_each names (fun f =>
    if endswith f ".png" then print ("  " +:+ f) else ret tt).

End Script.

(** ** A reference environment

    One concrete library and file system, used to run the script on concrete
    inputs.  Shapes are rasterised by their plain geometric definition and each
    character of a text as a solid cell; the encoder writes the PNG signature,
    the dimensions and the raw pixels.  [Setup] chooses what varies between
    machines. *)

Record Setup : Type := {
  (** which font files [ImageFont.truetype] can load *)
  has_font : string -> bool;
  (** whether font objects offer [getlength] *)
  has_getlength : bool;
  (** whether a box with [x1 < x0] or [y1 < y0] is refused with ValueError *)
  strict_boxes : bool;
  (** which file names cannot be opened for writing *)
  unwritable : string -> bool;
  (** which lines standard output cannot encode *)
  unprintable : string -> bool
}.

Definition box_ok (strict : bool) (b : box) : bool :=
  negb strict
  || ((py_trunc (bx0 b) <=? py_trunc (bx1 b)) && (py_trunc (by0 b) <=? py_trunc (by1 b))).

Definition in_box (b : box) (x y : Z) : bool :=
  (py_trunc (bx0 b) <=? x) && (x <=? py_trunc (bx1 b))
  && (py_trunc (by0 b) <=? y) && (y <=? py_trunc (by1 b)).

(** Inside the box and, within [r] of a corner, inside the corner's circle. *)
Definition in_rounded (b : box) (r x y : Z) : bool :=
  let '(x0, y0, x1, y1) :=
    (py_trunc (bx0 b), py_trunc (by0 b), py_trunc (bx1 b), py_trunc (by1 b)) in
  let cx := if x <? x0 + r then x0 + r else if x1 - r <? x then x1 - r else x in
  let cy := if y <? y0 + r then y0 + r else if y1 - r <? y then y1 - r else y in
  in_box b x y && ((x - cx) * (x - cx) + (y - cy) * (y - cy) <=? r * r).

Definition shrink (b : box) (k : Z) : box :=
  Box (PInt (py_trunc (bx0 b) + k)) (PInt (py_trunc (by0 b) + k))
      (PInt (py_trunc (bx1 b) - k)) (PInt (py_trunc (by1 b) - k)).

Definition ref_rounded_rectangle (strict : bool) (b : box) (radius : Z)
    (fill outline : option rgba) (width : Z) : result (Z -> Z -> option rgba) :=
  if box_ok strict b then
    Ok (fun x y =>
          if in_rounded b radius x y then
            match outline with
            | Some c =>
                if in_rounded (shrink b width) (Z.max 0 (radius - width)) x y
                then fill else Some c
            | None => fill
            end
          else None)
  else Raise (Exn "ValueError").

Definition ref_ellipse (strict : bool) (b : box) (fill : rgba)
  : result (Z -> Z -> option rgba) :=
  if box_ok strict b then
    Ok (fun x y =>
          let '(x0, y0, x1, y1) :=
            (py_trunc (bx0 b), py_trunc (by0 b), py_trunc (bx1 b), py_trunc (by1 b)) in
          let '(dx, dy, a, c) := (2 * x - x0 - x1, 2 * y - y0 - y1, x1 - x0, y1 - y0) in
          if in_box b x y && (dx * dx * (c * c) + dy * dy * (a * a) <=? a * a * (c * c))
          then Some fill else None)
  else Raise (Exn "ValueError").

Definition ref_rectangle (strict : bool) (b : box) (fill : rgba)
  : result (Z -> Z -> option rgba) :=
  if box_ok strict b then
    Ok (fun x y => if in_box b x y then Some fill else None)
  else Raise (Exn "ValueError").

(** The advance of one character of a TrueType face at [s] pixels: 0.6 em,
    hinted to whole pixels (7 pixels at 12). *)
Definition ref_advance (s : Z) : Z := (6 * s + 5) / 10.

(** Cell width in tenths of a pixel, and cell height: the advance by 1 em for
    a TrueType face, 6 by 11 pixels for the built-in face. *)
Definition ref_cell (font : Font) : Z * Z :=
  match font with
  | TrueType _ s => (10 * ref_advance s, s)
  | DefaultFont => (60, 11)
  end.

Definition ref_text (font : Font) (text : string) (xy : pynum * pynum)
  : result (Z -> Z -> Z) :=
  Ok (fun x y =>
        let '(adv, ht) := ref_cell font in
        let '(tx, ty) := (py_trunc (fst xy), py_trunc (snd xy)) in
        if (tx <=? x) && (ty <=? y) && (y <? ty + ht) && (0 <? adv) then
          match String.get (Z.to_nat ((x - tx) * 10 / adv)) text with
          | Some c => if Ascii.eqb c " "%char then 0 else 255
          | None => 0
          end
        else 0).

(** [font.getlength(text)]: the number of characters times the advance, as
    a float; AttributeError on font objects that lack the method. *)
Definition ref_getlength (has : bool) (font : Font) (text : string) : result float :=
  if has then
    match font with
    | TrueType _ s => Ok (float_of_Z (pylen text * ref_advance s))
    | DefaultFont => Ok (float_of_Z (pylen text * 6))
    end
  else Raise (Exn "AttributeError").

Definition byte_of_Z (z : Z) : byte :=
  match Byte.of_N (Z.to_N (z mod 256)) with
  | Some b => b
  | None => x00
  end.

Definition Z_of_byte (b : byte) : Z := Z.of_N (Byte.to_N b).

#[global] Instance byte_eq_decision : EqDecision byte := Byte.byte_eq_dec.

(** A 32-bit big-endian field, as in a PNG header. *)
Definition be32 (z : Z) : list byte :=
  [byte_of_Z (z / 16777216); byte_of_Z (z / 65536); byte_of_Z (z / 256); byte_of_Z z].

Definition un_be32 (l : list byte) : Z :=
  match l with
  | [a; b; c; d] =>
      ((Z_of_byte a * 256 + Z_of_byte b) * 256 + Z_of_byte c) * 256 + Z_of_byte d
  | _ => 0
  end.

Definition png_signature : list byte := [x89; x50; x4e; x47; x0d; x0a; x1a; x0a].

Definition pixel_bytes (c : rgba) : list byte :=
  match c with
  | (r, g, b, a) => [byte_of_Z r; byte_of_Z g; byte_of_Z b; byte_of_Z a]
  end.

Definition raster_bytes (img : Image) : list byte :=
  y ← seqZ 0 (im_height img); x ← seqZ 0 (im_width img); pixel_bytes (im_data img x y).

Definition ref_encode (format : string) (img : Image) : result (list byte) :=
  if negb (String.eqb format "PNG") then Raise (Exn "KeyError")
  else if (2147483648 <=? im_width img) || (2147483648 <=? im_height img)
       || (im_width img <? 0) || (im_height img <? 0)
  then Raise (Exn "ValueError")
  else Ok (png_signature ++ be32 (im_width img) ++ be32 (im_height img)
             ++ raster_bytes img)%list.

Definition ref_png_decode (data : list byte) : option Image :=
  let w := un_be32 (take 4 (drop 8 data)) in
  let h := un_be32 (take 4 (drop 12 data)) in
  let px := drop 16 data in
  if bool_decide (take 8 data = png_signature)
     && (Z.of_nat (length px) =? 4 * (w * h))
  then
    Some {| im_mode := "RGBA"; im_width := w; im_height := h;
            im_data := fun x y =>
              let ch k := Z_of_byte (nth (Z.to_nat (4 * (y * w + x) + k)) px x00) in
              (ch 0, ch 1, ch 2, ch 3) |}
  else None.

Definition ref_env (s : Setup) : Pillow :=
  {| new_error := fun wd ht =>
       if (2147483648 <=? wd) || (2147483648 <=? ht)
       then Some (Exn "OverflowError") else None;
     truetype_error := fun path _ =>
       if has_font s path then None else Some (Exn "OSError");
     getlength := ref_getlength (has_getlength s);
     rounded_rectangle_mask := ref_rounded_rectangle (strict_boxes s);
     ellipse_mask := ref_ellipse (strict_boxes s);
     rectangle_mask := ref_rectangle (strict_boxes s);
     text_mask := ref_text;
     encode := ref_encode;
     png_decode := ref_png_decode;
     write_error := fun name =>
       if unwritable s name then Some (Exn "PermissionError") else None;
     print_error := fun line =>
       if unprintable s line then Some (Exn "UnicodeEncodeError") else None;
     listdir_error := None |}.

(** A Linux machine: DejaVu Sans Mono installed, Monaco not. *)
Definition linux : Setup :=
  {| has_font := String.eqb dejavu_path; has_getlength := true;
     strict_boxes := false; unwritable := fun _ => false;
     unprintable := fun _ => false |}.


(** The same machine with a library that refuses boxes whose corners are
    out of order. *)
Definition strict (s : Setup) : Setup :=
  {| has_font := has_font s; has_getlength := has_getlength s;
     strict_boxes := true; unwritable := unwritable s;
     unprintable := unprintable s |}.

(** The same machine with font objects that do not offer [getlength]. *)
Definition without_getlength (s : Setup) : Setup :=
  {| has_font := has_font s; has_getlength := false;
     strict_boxes := strict_boxes s; unwritable := unwritable s;
     unprintable := unprintable s |}.

Definition empty_world : World :=
  {| heap := ∅; files := ∅; stdout := []; trace := [] |}.

(** A machine on which [icon_64x64.png] cannot be opened for writing. *)
Definition locked : Setup :=
  {| has_font := String.eqb dejavu_path; has_getlength := true;
     strict_boxes := false; unwritable := String.eqb "icon_64x64.png";
     unprintable := fun _ => false |}.

(** A working directory that already holds a PNG file. *)
Definition stray_world : World :=
  {| heap := ∅; files := {[ "logo.png" := [] ]}; stdout := []; trace := [] |}.

(** * The vocabulary of the properties

    The notions the statements below are written in: triples of the program
    logic, the laws the imaging library is asked to obey, and the words for
    pixels, fonts, file names and call traces. *)

(** ** Triples of the program logic for [Py]

    [triple P m Q E]: from a world satisfying [P], a run of [m] that returns
    [a] ends in a world satisfying [Q a], and a run that raises [e] ends in a
    world satisfying [E e].  With [E] false the triple says that [m]
    returns. *)

Definition triple {A} (P : World -> Prop) (m : Py A)
    (Q : A -> World -> Prop) (E : exn -> World -> Prop) : Prop :=
  forall w, P w ->
    match m w with
    | (w', Ok a) => Q a w'
    | (w', Raise e) => E e w'
    end.

(** The exceptional postcondition of a computation that does not raise. *)
Definition never : exn -> World -> Prop := fun _ _ => False.

(** ** Library laws *)

(** A rounded rectangle with integer corners writes nothing outside its
    box. *)
Definition rounded_in_box (env : Pillow) : Prop :=
  forall x0 y0 x1 y1 radius fill outline width m x y,
    rounded_rectangle_mask env (Box (PInt x0) (PInt y0) (PInt x1) (PInt y1))
      radius fill outline width = Ok m ->
    is_Some (m x y) ->
    x0 <= x <= x1 /\ y0 <= y <= y1.

(** What the PNG encoder writes for an RGBA image, the PNG decoder reads back
    as an RGBA image of the same dimensions. *)
Definition png_roundtrip (env : Pillow) : Prop :=
  forall img data,
    im_mode img = "RGBA" ->
    encode env "PNG" img = Ok data ->
    exists img',
      png_decode env data = Some img' /\
      im_mode img' = "RGBA" /\
      im_width img' = im_width img /\ im_height img' = im_height img.

(** ** Pixels *)

(** The colour [Image.new] fills the canvas with. *)
Definition transparent : rgba := (0, 0, 0, 0).

(** [img.getpixel((x, y))] on the object behind [icon]. *)
Definition pixel_at (w : World) (icon : ref) (x y : Z) : option rgba :=
  match heap w !! icon with
  | Some img => if in_canvas img x y then Some (im_data img x y) else None
  | None => None
  end.

(** Outside the box [[margin, margin, size - margin, size - margin]]. *)
Definition outside_terminal (size x y : Z) : Prop :=
  x < size / 10 \/ size - size / 10 < x \/ y < size / 10 \/ size - size / 10 < y.

(** A box with integer corners that, unless it is empty from left to right,
    lies within the terminal rectangle
    [[margin, margin, size - margin, size - margin]]. *)
Definition inside_terminal (size : Z) (xy : box) : Prop :=
  exists x0 y0 x1 y1,
    xy = Box (PInt x0) (PInt y0) (PInt x1) (PInt y1) /\
    (x0 <= x1 ->
     size / 10 <= x0 /\ x1 <= size - size / 10 /\
     size / 10 <= y0 /\ y1 <= size - size / 10).

(** The calls that follow the two rounded rectangles and may write pixels:
    the control dots, the cursor and the texts. *)
Definition later_shape (ev : event) : bool :=
  match ev with
  | EvEllipse _ _ _ | EvRectangle _ _ _ | EvText _ _ _ _ _ => true
  | _ => false
  end.

(** ** Fonts *)



(** ** File names and reports *)

(** The file names [main] saves the icon of a given size under, in call
    order (lines 103-112). *)
Definition save_names (size : Z) : list string :=
  ("icon_" +:+ pystr size +:+ "x" +:+ pystr size +:+ ".png")
  :: (if size =? 32 then ["32x32.png"]
      else if size =? 128 then ["128x128.png"; "128x128@2x.png"]
      else if size =? 512 then ["icon.png"]
      else []).

(** The file names of the save calls of [main], in call order: the six size
    variants, each followed by its renamed copies. *)
Definition output_files : list string :=
  ["icon_16x16.png"; "icon_32x32.png"; "32x32.png"; "icon_64x64.png";
   "icon_128x128.png"; "128x128.png"; "128x128@2x.png";
   "icon_256x256.png"; "icon_512x512.png"; "icon.png"].

(** Each output file with the edge length of the icon saved under it. *)
Definition output_sizes : list (string * Z) :=
  [("icon_16x16.png", 16); ("icon_32x32.png", 32); ("32x32.png", 32);
   ("icon_64x64.png", 64); ("icon_128x128.png", 128); ("128x128.png", 128);
   ("128x128@2x.png", 128); ("icon_256x256.png", 256);
   ("icon_512x512.png", 512); ("icon.png", 512)].

(** The sizes saved under more than one name, with these names in call
    order: the size variant first, then its copies. *)
Definition copies : list (Z * list string) :=
  [(32, ["icon_32x32.png"; "32x32.png"]);
   (128, ["icon_128x128.png"; "128x128.png"; "128x128@2x.png"]);
   (512, ["icon_512x512.png"; "icon.png"])].

(** [f.endswith('.png')]. *)
Definition is_png (f : string) : bool := endswith f ".png".

(** The lines [main] prints for a directory listing: every name ending in
    [.png], indented by two spaces. *)
Definition report_lines (names : list string) : list string :=
  map (fun f => "  " +:+ f) (List.filter is_png names).

(** The two lines printed before the listing. *)
Definition banner : list string := ["Icons created successfully!"; "Files created:"].

(** ** Call traces *)

(** The calls the script makes inside a [try] block. *)
Definition guarded (ev : event) : bool :=
  match ev with
  | EvTruetype _ _ | EvGetlength _ _ => true
  | _ => false
  end.

(** The file names of the save calls in a trace, in call order. *)
Definition saved_names (tr : list event) : list string :=
  flat_map (fun ev => match ev with EvSave _ n _ => [n] | _ => [] end) tr.

(** The calls of the report at the end of [main]. *)
Definition is_report (ev : event) : Prop :=
  match ev with
  | EvPrint _ | EvListdir => True
  | _ => False
  end.

(** A save call names the format ['PNG']. *)
Definition save_is_png (ev : event) : Prop :=
  match ev with
  | EvSave _ _ format => format = "PNG"
  | _ => True
  end.

(** The reference [r] points to an object. *)
Definition live (r : ref) (w : World) : Prop := is_Some (heap w !! r).

(** ** Two runs side by side *)

(** Two worlds agree on a pair of references when these point to the same
    image (or both to none). *)
Definition agree (r1 r2 : ref) (w1 w2 : World) : Prop :=
  heap w1 !! r1 = heap w2 !! r2.

(** Two computations are related when, from worlds that agree, they either
    both return, with related results, or both raise the same exception, and
    leave worlds that agree. *)
Definition related {A} (r1 r2 : ref) (RA : A -> A -> Prop) (m1 m2 : Py A) : Prop :=
  forall w1 w2, agree r1 r2 w1 w2 ->
    match m1 w1, m2 w2 with
    | (w1', Ok a1), (w2', Ok a2) => agree r1 r2 w1' w2' /\ RA a1 a2
    | (w1', Raise e1), (w2', Raise e2) => agree r1 r2 w1' w2' /\ e1 = e2
    | _, _ => False
    end.

(** Two drawing handles on the two references. *)
Definition handles (r1 r2 : ref) (d1 d2 : Draw) : Prop :=
  draw_im d1 = r1 /\ draw_im d2 = r2.

(** ** Properties kept by every call on one canvas *)

(** A property of the world that survives a call being logged and the
    canvas [icon] being replaced. *)
Definition stable (icon : ref) (I : World -> Prop) : Prop :=
  (forall w ev, I w ->
     I {| heap := heap w; files := files w; stdout := stdout w;
          trace := (trace w ++ [ev])%list |})
  /\ (forall w img, I w -> I (set_heap (<[icon := img]> (heap w)) w)).

(** ** File writes *)

(** A sequence of whole-file writes, applied to a directory in order. *)
Definition apply_writes (ws : list (string * list byte))
    (m : gmap string (list byte)) : gmap string (list byte) :=
  foldl (fun f nd => <[fst nd := snd nd]> f) m ws.

(** ** Where the shapes are placed *)

(** A box with integer corners in order: [x0 <= x1] and [y0 <= y1]. *)
Definition ordered_box (xy : box) : Prop :=
  exists x0 y0 x1 y1,
    xy = Box (PInt x0) (PInt y0) (PInt x1) (PInt y1) /\ x0 <= x1 /\ y0 <= y1.

(** An integer coordinate at or beyond column [k]. *)
Definition right_of (k : Z) (n : pynum) : Prop := exists x, n = PInt x /\ k <= x.

(** The command text is placed after the measured width of the prompt; the
    other texts are placed at a column computed from the size alone. *)
Definition measured_text (text : string) : bool := String.eqb text "pH7Console --ai".

(** Where [create_terminal_icon size] places its shapes. *)
Definition placed_call (size : Z) (ev : event) : Prop :=
  match ev with
  | EvRoundedRectangle _ xy _ _ _ _ => 6 <= size -> ordered_box xy
  | EvEllipse _ xy _ =>
      (0 <= size -> ordered_box xy) /\ (size <= 22 -> right_of size (bx0 xy))
  | EvText _ xy text _ _ =>
      measured_text text = false -> size <= 22 -> right_of size (fst xy)
  | _ => True
  end.

(** A rounded rectangle or an ellipse whose box has its corners in order. *)
Definition ordered_call (ev : event) : Prop :=
  match ev with
  | EvRoundedRectangle _ xy _ _ _ _ | EvEllipse _ xy _ => ordered_box xy
  | _ => True
  end.

(** The control dots and the texts placed at a fixed column. *)
Definition fixed_shape (ev : event) : bool :=
  match ev with
  | EvEllipse _ _ _ => true
  | EvText _ _ text _ _ => negb (measured_text text)
  | _ => false
  end.

(** The library refuses a rounded rectangle whose corners are out of order
    (as Pillow does since version 9.5, with ValueError). *)
Definition refuses_inverted (env : Pillow) : Prop :=
  forall x0 y0 x1 y1 radius fill outline width,
    x1 < x0 \/ y1 < y0 ->
    is_ok (rounded_rectangle_mask env (Box (PInt x0) (PInt y0) (PInt x1) (PInt y1))
             radius fill outline width) = false.

(** An ellipse writes nothing left of its box, and a text nothing left of
    its anchor. *)
Definition right_of_anchor (env : Pillow) : Prop :=
  (forall xy fill m x y,
     ellipse_mask env xy fill = Ok m -> is_Some (m x y) -> py_trunc (bx0 xy) <= x)
  /\ (forall font text xy cov x y,
        text_mask env font text xy = Ok cov -> cov x y <> 0 ->
        py_trunc (fst xy) <= x).

(** ** The drawing phase and the rounds of the driver

    From here on the library [env] is fixed. *)

Section Drawing.

Variable env : Pillow.

(** The exception the call recorded by an event raises on its own account:
    the object a drawing call refers to is kept out of it, and for a save
    only the opening of the file is looked at. *)
Definition call_error (ev : event) : option exn :=
  match ev with
  | EvImageNew _ _ wd ht _ =>
      if (wd <? 0) || (ht <? 0) then Some (Exn "ValueError")
      else new_error env wd ht
  | EvRoundedRectangle _ xy radius fill outline width =>
      match rounded_rectangle_mask env xy radius fill outline width with
      | Ok _ => None
      | Raise e => Some e
      end
  | EvEllipse _ xy fill =>
      match ellipse_mask env xy fill with Ok _ => None | Raise e => Some e end
  | EvRectangle _ xy fill =>
      match rectangle_mask env xy fill with Ok _ => None | Raise e => Some e end
  | EvText _ xy text _ font =>
      match text_mask env font text xy with Ok _ => None | Raise e => Some e end
  | EvTruetype path size => truetype_error env path size
  | EvGetlength font text =>
      match getlength env font text with Ok _ => None | Raise e => Some e end
  | EvSave _ name _ => write_error env name
  | EvPrint line => print_error env line
  | EvListdir => listdir_error env
  | EvDraw _ | EvLoadDefault => None
  end.

Definition unraised (ev : event) : Prop :=
  guarded ev = false -> call_error ev = None.

(** Whether the call recorded by an event writes pixel [(x, y)]. *)
Definition covers (ev : event) (x y : Z) : bool :=
  match ev with
  | EvRoundedRectangle _ xy radius fill outline width =>
      match rounded_rectangle_mask env xy radius fill outline width with
      | Ok m => match m x y with Some _ => true | None => false end
      | Raise _ => false
      end
  | EvEllipse _ xy fill =>
      match ellipse_mask env xy fill with
      | Ok m => match m x y with Some _ => true | None => false end
      | Raise _ => false
      end
  | EvRectangle _ xy fill =>
      match rectangle_mask env xy fill with
      | Ok m => match m x y with Some _ => true | None => false end
      | Raise _ => false
      end
  | EvText _ xy text _ font =>
      match text_mask env font text xy with
      | Ok cov => negb (cov x y =? 0)
      | Raise _ => false
      end
  | _ => false
  end.

(** The state of the world while the icon [r] of edge [size] is being drawn,
    starting from [w0]: the directory and the output are as in [w0], every
    other object is untouched, [r] is an RGBA image of the requested size,
    every call so far is a drawing call on [r] accepted by [P] that did not
    raise outside a [try], the allocation of [r] succeeded, and a pixel no
    call has covered is still transparent. *)
Definition drawing (P : event -> Prop) (w0 : World) (r : ref) (size : Z)
    (w : World) : Prop :=
  files w = files w0 /\ stdout w = stdout w0 /\
  heap w0 !! r = None /\
  (forall r', r' <> r -> heap w !! r' = heap w0 !! r') /\
  exists img D,
    heap w !! r = Some img /\
    im_mode img = "RGBA" /\ im_width img = size /\ im_height img = size /\
    trace w = (trace w0 ++ EvImageNew r "RGBA" size size transparent :: D)%list /\
    Forall P D /\ Forall unraised D /\
    (0 <= size /\ new_error env size size = None) /\
    forall x y, Forall (fun ev => covers ev x y = false) D ->
                im_data img x y = transparent.

(** The state after a call outside any [try] raised [e]: it is the last
    call of the trace, and no earlier call raised outside a [try]. *)
Definition propagated (w0 : World) (e : exn) (w : World) : Prop :=
  files w = files w0 /\ stdout w = stdout w0 /\
  exists D ev,
    trace w = (trace w0 ++ D ++ [ev])%list /\
    Forall unraised D /\ guarded ev = false /\ call_error ev = Some e.

(** The face lines 48-55 end up with: Monaco if it loads, else DejaVu Sans
    Mono if it loads, else the built-in face. *)
Definition chosen_font (px : Z) : Font :=
  match truetype_error env monaco_path px with
  | None => TrueType monaco_path px
  | Some _ =>
      match truetype_error env dejavu_path px with
      | None => TrueType dejavu_path px
      | Some _ => DefaultFont
      end
  end.

(** The calls [create_terminal_icon size] may make on the canvas [r]: drawing
    calls on [r] itself, rounded rectangles within the terminal rectangle,
    font loads at the base size (or, for Monaco, four pixels above it), and
    text drawn in the chosen face or (for the logo) in the larger Monaco. *)
Definition icon_font (size : Z) (text : string) (font : Font) : Prop :=
  font = chosen_font (font_size_of size)
  \/ (text = "pH7" /\ font = TrueType monaco_path (font_size_of size + 4)).

Definition icon_call (size : Z) (r : ref) (ev : event) : Prop :=
  match ev with
  | EvDraw r' => r' = r
  | EvRoundedRectangle r' xy _ _ _ _ =>
      r' = r /\ (0 <= size -> inside_terminal size xy)
  | EvEllipse r' _ _ => r' = r
  | EvRectangle r' _ _ => r' = r
  | EvText r' _ text _ font => r' = r /\ icon_font size text font
  | EvTruetype path px =>
      px = font_size_of size
      \/ (path = monaco_path /\ px = font_size_of size + 4)
  | EvLoadDefault => True
  | EvGetlength _ _ => True
  | EvImageNew _ _ _ _ _ => False
  | EvSave _ _ _ => False
  | EvListdir => False
  | EvPrint _ => False
  end.

(** The library accepts every drawing call. *)
Definition draws_total : Prop :=
  (forall xy radius fill outline width,
     is_ok (rounded_rectangle_mask env xy radius fill outline width) = true)
  /\ (forall xy fill, is_ok (ellipse_mask env xy fill) = true)
  /\ (forall xy fill, is_ok (rectangle_mask env xy fill) = true)
  /\ (forall font text xy, is_ok (text_mask env font text xy) = true).

(** The PNG encoder accepts every image within the dimensions the format
    allows. *)
Definition encoder_total : Prop :=
  forall img, 0 <= im_width img < 2147483648 ->
              0 <= im_height img < 2147483648 ->
              is_ok (encode env "PNG" img) = true.

(** Every file can be opened for writing, and the encoder is total. *)
Definition saves_total : Prop :=
  (forall n, write_error env n = None) /\ encoder_total.

(** The six canvases can be allocated, every line can be printed and the
    working directory can be listed. *)
Definition system_total : Prop :=
  Forall (fun s => new_error env s s = None) sizes
  /\ (forall line, print_error env line = None)
  /\ listdir_error env = None.

(** What one successful round of the loop did to the world. *)
Definition round (size : Z) (w w' : World) : Prop :=
  exists icon img D data,
    heap w !! icon = None /\ heap w' = <[icon := img]> (heap w) /\
    im_mode img = "RGBA" /\ im_width img = size /\ im_height img = size /\
    0 <= size /\
    encode env "PNG" img = Ok data /\
    Forall (fun n => write_error env n = None) (save_names size) /\
    files w' = foldl (fun f n => <[n := data]> f) (files w) (save_names size) /\
    stdout w' = stdout w /\
    trace w' = (trace w ++ EvImageNew icon "RGBA" size size transparent :: D
                  ++ map (fun n => EvSave icon n "PNG") (save_names size))%list /\
    Forall (icon_call size icon) D /\ Forall unraised D /\
    (forall x y, Forall (fun ev => covers ev x y = false) D ->
                 im_data img x y = transparent).

(** Successive rounds. *)
Fixpoint rounds (l : list Z) (w w' : World) : Prop :=
  match l with
  | [] => w' = w
  | size :: l' => exists w1, round size w w1 /\ rounds l' w1 w'
  end.

(** The trace of successive rounds: for each size in turn one block, made of
    the allocation of the icon, the drawing calls on that icon, and then the
    saves of that icon. *)
Inductive sequential : list Z -> list event -> Prop :=
| sequential_nil : sequential [] []
| sequential_cons size l icon D tr :
    Forall (icon_call size icon) D ->
    sequential l tr ->
    sequential (size :: l)
      (EvImageNew icon "RGBA" size size transparent :: D
         ++ map (fun n => EvSave icon n "PNG") (save_names size) ++ tr).

(** ** The calls of [create_terminal_icon], one by one *)

(** The width lines 62-65 and 70-73 end up with: what [font.getlength]
    returns, or [len(text) * font_size * 0.6] when it raises. *)
Definition measured (font : Font) (text : string) (font_size : Z) : pynum :=
  match getlength env font text with
  | Ok l => PFloat l
  | Raise _ => py_mul (py_mul (PInt (pylen text)) (PInt font_size)) (PFloat f0_6)
  end.

(** The face lines 86-89 end up with for the logo: Monaco four pixels above
    the base size if that loads, else the text font. *)
Definition logo_face (font_size : Z) (font : Font) : Font :=
  match truetype_error env monaco_path (font_size + 4) with
  | None => TrueType monaco_path (font_size + 4)
  | Some _ => font
  end.

(** The font loads of lines 48-55, in call order. *)
Definition font_attempts (px : Z) : list event :=
  EvTruetype monaco_path px ::
  match truetype_error env monaco_path px with
  | None => []
  | Some _ =>
      EvTruetype dejavu_path px ::
      match truetype_error env dejavu_path px with
      | None => []
      | Some _ => [EvLoadDefault]
      end
  end.

(** The calls a run of [create_terminal_icon size] that returns makes after
    the allocation of its canvas [r], in call order (lines 8-91). *)
Definition icon_trace (size : Z) (r : ref) : list event :=
  let margin := size / 10 in
  let title_bar_height := size / 8 in
  let control_size := size / 30 in
  let control_y := margin + title_bar_height / 2 in
  let content_y := margin + title_bar_height + 10 in
  let line_height := size / 20 in
  let font_size := font_size_of size in
  let font := chosen_font font_size in
  let prompt_width := measured font "$ " font_size in
  let total_width := measured font "$ pH7Console --ai" font_size in
  let cursor_x := py_add (py_add (PInt (margin + 20)) total_width) (PInt 5) in
  let ai_y := content_y + line_height + 10 in
  let logo_y := ai_y + line_height + 10 in
  ([ EvDraw r;
     EvRoundedRectangle r
       (Box (PInt margin) (PInt margin) (PInt (size - margin)) (PInt (size - margin)))
       (size / 20) (Some (26, 27, 38, 255)) (Some (80, 250, 123, 255)) 3;
     EvRoundedRectangle r
       (Box (PInt (margin + 3)) (PInt (margin + 3))
            (PInt (size - margin - 3)) (PInt (margin + 3 + title_bar_height)))
       (size / 30) (Some (40, 42, 54, 255)) None 1;
     EvEllipse r
       (Box (PInt (margin + 20)) (PInt (control_y - control_size / 2))
            (PInt (margin + 20 + control_size)) (PInt (control_y + control_size / 2)))
       (255, 85, 85, 255);
     EvEllipse r
       (Box (PInt (margin + 20 + control_size * 2)) (PInt (control_y - control_size / 2))
            (PInt (margin + 20 + control_size * 3)) (PInt (control_y + control_size / 2)))
       (255, 184, 108, 255);
     EvEllipse r
       (Box (PInt (margin + 20 + control_size * 4)) (PInt (control_y - control_size / 2))
            (PInt (margin + 20 + control_size * 5)) (PInt (control_y + control_size / 2)))
       (80, 250, 123, 255) ]
   ++ font_attempts font_size
   ++ [ EvText r (PInt (margin + 20), PInt content_y) "$ " (80, 250, 123, 255) font;
        EvGetlength font "$ ";
        EvText r (py_add (PInt (margin + 20)) prompt_width, PInt content_y)
          "pH7Console --ai" (248, 248, 242, 255) font;
        EvGetlength font "$ pH7Console --ai";
        EvRectangle r
          (Box cursor_x (PInt content_y) (py_add cursor_x (PInt 2))
               (PInt (content_y + font_size)))
          (80, 250, 123, 255);
        EvText r (PInt (margin + 20), PInt ai_y) "🤖 AI Ready" (80, 250, 123, 255) font;
        EvTruetype monaco_path (font_size + 4);
        EvText r (PInt (margin + 20), PInt logo_y) "pH7" (80, 250, 123, 255)
          (logo_face font_size font) ])%list.

(** What a call that returned did to the canvas. *)
Definition paint (ev : event) (img : Image) : Image :=
  match ev with
  | EvRoundedRectangle _ xy radius fill outline width =>
      match rounded_rectangle_mask env xy radius fill outline width with
      | Ok m => put m img
      | Raise _ => img
      end
  | EvEllipse _ xy fill =>
      match ellipse_mask env xy fill with Ok m => put m img | Raise _ => img end
  | EvRectangle _ xy fill =>
      match rectangle_mask env xy fill with Ok m => put m img | Raise _ => img end
  | EvText _ xy text fill font =>
      match text_mask env font text xy with
      | Ok cov => put_text cov fill img
      | Raise _ => img
      end
  | _ => img
  end.

(** The canvas [Image.new('RGBA', (size, size), (0, 0, 0, 0))] yields. *)
Definition blank (size : Z) : Image :=
  {| im_mode := "RGBA"; im_width := size; im_height := size;
     im_data := fun _ _ => transparent |}.

(** The canvas after the calls [D]. *)
Definition painting (size : Z) (D : list event) : Image :=
  fold_left (fun img ev => paint ev img) D (blank size).

(** The finished icon. *)
Definition render (size : Z) (r : ref) : Image := painting size (icon_trace size r).

(** The world after the allocation of the canvas [r] in [w0] and the calls
    [D] on it. *)
Definition painted (w0 : World) (r : ref) (size : Z) (D : list event) : World :=
  {| heap := <[r := painting size D]> (heap w0);
     files := files w0; stdout := stdout w0;
     trace := (trace w0 ++ EvImageNew r "RGBA" size size transparent :: D)%list |}.

(** The library accepts the allocation and every call outside a [try] that
    [create_terminal_icon size] makes on the canvas [r]. *)
Definition accepts (size : Z) (r : ref) : Prop :=
  Forall unraised (EvImageNew r "RGBA" size size transparent :: icon_trace size r).

(** One of the calls [L], outside a [try], raises [e]. *)
Definition refused (L : list event) (e : exn) : Prop :=
  exists ev, In ev L /\ guarded ev = false /\ call_error ev = Some e.

(** One round of the loop, done (lines 100-112): the canvas was allocated
    and every call of [icon_trace] was accepted and painted on it; then the
    finished picture was encoded and written under each name of the size. *)
Definition finished_round (size : Z) (w w' : World) : Prop :=
  exists icon data,
    icon = fresh (dom (heap w)) /\
    accepts size icon /\
    encode env "PNG" (render size icon) = Ok data /\
    Forall (fun n => write_error env n = None) (save_names size) /\
    w' = {| heap := <[icon := render size icon]> (heap w);
            files := foldl (fun f n => <[n := data]> f) (files w) (save_names size);
            stdout := stdout w;
            trace := (trace w ++ EvImageNew icon "RGBA" size size transparent
                        :: icon_trace size icon
                        ++ map (fun n => EvSave icon n "PNG") (save_names size))%list |}.

(** Successive finished rounds: each starts from the world the one before
    left. *)
Fixpoint finished_rounds (l : list Z) (w w' : World) : Prop :=
  match l with
  | [] => w' = w
  | size :: l' => exists w1, finished_round size w w1 /\ finished_rounds l' w1 w'
  end.

(** * Proofs *)

(** ** Rules of the program logic *)

Section Rules.

Context {A B : Type}.

Lemma triple_ret (P : World -> Prop) (a : A) (Q : A -> World -> Prop) E :
  (forall w, P w -> Q a w) -> triple P (ret a) Q E.
Proof. intros H w Hw. simpl. auto. Qed.

Lemma triple_raise (P : World -> Prop) (e : exn) (Q : A -> World -> Prop)
    (E : exn -> World -> Prop) :
  (forall w, P w -> E e w) -> triple P (raise e) Q E.
Proof. intros H w Hw. simpl. auto. Qed.

Lemma triple_bind P (m : Py A) (k : A -> Py B) Q1 Q E :
  triple P m Q1 E ->
  (forall a, triple (Q1 a) (k a) Q E) ->
  triple P (bind m k) Q E.
Proof.
  intros Hm Hk w Hw. unfold bind. specialize (Hm w Hw).
  destruct (m w) as [w1 [a | e]]; [ | exact Hm ].
  exact (Hk a w1 Hm).
Qed.

Lemma triple_try_except P (m h : Py A) Q E1 E :
  triple P m Q E1 ->
  (forall e, triple (E1 e) h Q E) ->
  triple P (try_except m h) Q E.
Proof.
  intros Hm Hh w Hw. unfold try_except. specialize (Hm w Hw).
  destruct (m w) as [w1 [a | e]]; [ exact Hm | ].
  exact (Hh e w1 Hm).
Qed.

Lemma triple_conseq (P P' : World -> Prop) (m : Py A)
    (Q Q' : A -> World -> Prop) (E E' : exn -> World -> Prop) :
  triple P' m Q' E' ->
  (forall w, P w -> P' w) ->
  (forall a w, Q' a w -> Q a w) ->
  (forall e w, E' e w -> E e w) ->
  triple P m Q E.
Proof.
  intros Hm HP HQ HE w Hw. specialize (Hm w (HP w Hw)).
  destruct (m w) as [w1 [a | e]]; auto.
Qed.

(** Sequencing under an invariant [I]: the first computation keeps [I] and
    tells a fact [phi] about its result, which the rest may use. *)
Lemma triple_seq (I : World -> Prop) (phi : A -> Prop) (m : Py A)
    (k : A -> Py B) Q E :
  triple I m (fun a w => I w /\ phi a) E ->
  (forall a, phi a -> triple I (k a) Q E) ->
  triple I (bind m k) Q E.
Proof.
  intros Hm Hk. eapply triple_bind; [ exact Hm | ].
  intros a w [Hw Ha]. exact (Hk a Ha w Hw).
Qed.

(** A fact that does not mention the world can be taken out of the
    precondition. *)
Lemma triple_pure_pre (phi : Prop) P (m : Py A) Q E :
  (phi -> triple P m Q E) ->
  triple (fun w => P w /\ phi) m Q E.
Proof. intros H w [Hw Hphi]. exact (H Hphi w Hw). Qed.

End Rules.

(** What a run did, read back from a triple. *)
Lemma triple_run {A} P (m : Py A) Q E w w' a :
  triple P m Q E -> P w -> m w = (w', Ok a) -> Q a w'.
Proof. intros H Hw Hrun. specialize (H w Hw). now rewrite Hrun in H. Qed.

Lemma triple_run_raise {A} P (m : Py A) Q E w w' e :
  triple P m Q E -> P w -> m w = (w', Raise e) -> E e w'.
Proof. intros H Hw Hrun. specialize (H w Hw). now rewrite Hrun in H. Qed.

Lemma triple_returns {A} P (m : Py A) Q w :
  triple P m Q never -> P w ->
  exists w' a, m w = (w', Ok a) /\ Q a w'.
Proof.
  intros H Hw. specialize (H w Hw).
  destruct (m w) as [w1 [a | e]]; [ eauto | contradiction ].
Qed.

(** ** The drawing phase *)

Lemma blend_transparent (ink : rgba) : blend 0 transparent ink = transparent.
Proof.
  destruct ink as [[[r g] b] a]. unfold blend, transparent, blend_channel.
  now rewrite !Z.mul_0_r.
Qed.

Lemma put_keeps (m : Z -> Z -> option rgba) (img : Image) (x y : Z) :
  m x y = None -> im_data (put m img) x y = im_data img x y.
Proof. intros H. simpl. rewrite H. now destruct (in_canvas img x y). Qed.

Lemma put_text_keeps (cov : Z -> Z -> Z) (ink : rgba) (img : Image) (x y : Z) :
  cov x y = 0 -> im_data img x y = transparent ->
  im_data (put_text cov ink img) x y = transparent.
Proof.
  intros H Ht. simpl. rewrite H, Ht, blend_transparent.
  now destruct (in_canvas img x y).
Qed.

(** Logging a call that the invariant admits. *)
Lemma log_keeps_drawing P w0 r size ev E :
  P ev -> unraised ev ->
  triple (drawing P w0 r size) (log ev)
    (fun _ w => drawing P w0 r size w /\ True) E.
Proof.
  intros HP Hun w (Hf & Hs & Hfresh & Hother & img & D & Hr & Hm & Hw & Hh & Ht & HD & HU & [Hsz Hnew] & Hpx).
  simpl. split; [ | exact I ].
  unfold drawing; simpl. repeat split; auto.
  exists img, (D ++ [ev])%list. repeat split; auto.
  - rewrite Ht. now rewrite <- app_assoc.
  - apply Forall_app; auto.
  - apply Forall_app; auto.
  - intros x y Hc. apply Hpx. now apply Forall_app in Hc.
Qed.

(** A drawing call outside any [try]: it is logged, the library computes
    what it writes (or raises), and the canvas is updated in place. *)
Lemma draw_call_triple {M} P w0 r size ev (res : result M) (upd : M -> Image -> Image) :
  guarded ev = false ->
  call_error ev = match res with Ok _ => None | Raise e => Some e end ->
  (forall m, res = Ok m -> P ev) ->
  (forall m img, res = Ok m ->
     im_mode (upd m img) = im_mode img /\
     im_width (upd m img) = im_width img /\
     im_height (upd m img) = im_height img /\
     forall x y, covers ev x y = false -> im_data img x y = transparent ->
                 im_data (upd m img) x y = transparent) ->
  triple (drawing P w0 r size)
    (log ev ;; m <- lift res ;; update_image r (upd m))
    (fun _ w => drawing P w0 r size w /\ True) (propagated w0).
Proof.
  intros Hg Herr HP Hupd w (Hf & Hs & Hfresh & Hother & img & D & Hr & Hm & Hw & Hh & Ht & HD & HU & [Hsz Hnew] & Hpx).
  unfold bind, log, lift, update_image, deref, bind; simpl.
  destruct res as [m | e]; simpl.
  - rewrite Hr. simpl. split; [ | exact I ].
    destruct (Hupd m img eq_refl) as (Hm' & Hw' & Hh' & Hpx').
    unfold drawing; simpl. repeat split; auto.
    + intros r' Hne. rewrite lookup_insert_ne by congruence. auto.
    + exists (upd m img), (D ++ [ev])%list. rewrite lookup_insert_eq.
      repeat split; try congruence.
      * rewrite Ht. now rewrite <- app_assoc.
      * apply Forall_app; split; eauto.
      * apply Forall_app; split; auto. constructor; auto. intros _. exact Herr.
      * intros x y Hc. apply Forall_app in Hc as [Hc1 Hc2].
        inversion Hc2; subst. apply Hpx'; auto.
  - unfold propagated; simpl. repeat split; auto.
    exists (EvImageNew r "RGBA" size size transparent :: D), ev.
    repeat split; auto.
    + rewrite Ht. now rewrite <- app_assoc.
    + constructor; auto. intros _. simpl.
      destruct (size <? 0) eqn:Hlt; [ lia | exact Hnew ].
Qed.

Section Primitives.

Variables (P : event -> Prop) (w0 : World) (r : ref) (size : Z).

Lemma Draw_triple E :
  P (EvDraw r) ->
  triple (drawing P w0 r size) (ImageDraw_Draw r)
    (fun d w => drawing P w0 r size w /\ draw_im d = r) E.
Proof.
  intros HP. unfold ImageDraw_Draw. eapply triple_seq.
  - apply log_keeps_drawing; [ exact HP | intros _; reflexivity ].
  - intros _ _. apply triple_ret. auto.
Qed.

Lemma rounded_rectangle_triple d xy radius fill outline width :
  draw_im d = r ->
  P (EvRoundedRectangle r xy radius fill outline width) ->
  triple (drawing P w0 r size)
    (draw_rounded_rectangle env d xy radius fill outline width)
    (fun _ w => drawing P w0 r size w /\ True) (propagated w0).
Proof.
  unfold draw_rounded_rectangle. intros -> HP.
  apply draw_call_triple; auto.
  intros m img Hm. repeat split; auto.
  intros x y Hc Ht. rewrite put_keeps; auto.
  simpl in Hc. rewrite Hm in Hc. now destruct (m x y).
Qed.

Lemma ellipse_triple d xy fill :
  draw_im d = r ->
  P (EvEllipse r xy fill) ->
  triple (drawing P w0 r size) (draw_ellipse env d xy fill)
    (fun _ w => drawing P w0 r size w /\ True) (propagated w0).
Proof.
  unfold draw_ellipse. intros -> HP.
  apply draw_call_triple; auto.
  intros m img Hm. repeat split; auto.
  intros x y Hc Ht. rewrite put_keeps; auto.
  simpl in Hc. rewrite Hm in Hc. now destruct (m x y).
Qed.

Lemma rectangle_triple d xy fill :
  draw_im d = r ->
  P (EvRectangle r xy fill) ->
  triple (drawing P w0 r size) (draw_rectangle env d xy fill)
    (fun _ w => drawing P w0 r size w /\ True) (propagated w0).
Proof.
  unfold draw_rectangle. intros -> HP.
  apply draw_call_triple; auto.
  intros m img Hm. repeat split; auto.
  intros x y Hc Ht. rewrite put_keeps; auto.
  simpl in Hc. rewrite Hm in Hc. now destruct (m x y).
Qed.

Lemma text_triple d xy text fill font :
  draw_im d = r ->
  P (EvText r xy text fill font) ->
  triple (drawing P w0 r size) (draw_text env d xy text fill font)
    (fun _ w => drawing P w0 r size w /\ True) (propagated w0).
Proof.
  unfold draw_text. intros -> HP.
  apply draw_call_triple; auto.
  intros cov img Hm. repeat split; auto.
  intros x y Hc Ht. apply put_text_keeps; auto.
  simpl in Hc. rewrite Hm in Hc. apply negb_false_iff in Hc. lia.
Qed.

(** A font that fails to load leaves the drawing state intact: the handler
    of the surrounding [try] continues from it. *)
Lemma truetype_triple path px :
  P (EvTruetype path px) ->
  triple (drawing P w0 r size) (ImageFont_truetype env path px)
    (fun f w => drawing P w0 r size w /\
                (f = TrueType path px /\ truetype_error env path px = None))
    (fun e w => drawing P w0 r size w /\ truetype_error env path px = Some e).
Proof.
  intros HP. unfold ImageFont_truetype. eapply triple_seq.
  - apply log_keeps_drawing; [ exact HP | intros Hg; discriminate Hg ].
  - intros _ _. destruct (truetype_error env path px).
    + apply triple_raise. auto.
    + apply triple_ret. auto.
Qed.

Lemma load_default_triple E :
  P EvLoadDefault ->
  triple (drawing P w0 r size) ImageFont_load_default
    (fun f w => drawing P w0 r size w /\ f = DefaultFont) E.
Proof.
  intros HP. unfold ImageFont_load_default. eapply triple_seq.
  - apply log_keeps_drawing; [ exact HP | intros _; reflexivity ].
  - intros _ _. apply triple_ret. auto.
Qed.

Lemma getlength_triple font text :
  P (EvGetlength font text) ->
  triple (drawing P w0 r size) (font_getlength env font text)
    (fun _ w => drawing P w0 r size w /\ True)
    (fun _ w => drawing P w0 r size w).
Proof.
  intros HP. unfold font_getlength. eapply triple_seq.
  - apply log_keeps_drawing; [ exact HP | intros Hg; discriminate Hg ].
  - intros _ _. eapply triple_seq with (phi := fun _ => True).
    + intros w Hw. unfold lift. destruct (getlength env font text); auto.
    + intros l _. apply triple_ret. auto.
Qed.

(** Lines 48-55 keep the drawing state and yield [chosen_font]. *)
Lemma select_font_triple px E :
  P (EvTruetype monaco_path px) -> P (EvTruetype dejavu_path px) ->
  P EvLoadDefault ->
  triple (drawing P w0 r size) (select_font env px)
    (fun f w => drawing P w0 r size w /\ f = chosen_font px) E.
Proof.
  intros H1 H2 H3. unfold select_font, chosen_font.
  eapply triple_try_except.
  - eapply triple_conseq;
      [ apply truetype_triple; exact H1 | auto | | intros e w He; exact He ].
    simpl. intros f w (Hw & -> & ->). auto.
  - intros e1. apply triple_pure_pre. intros ->.
    eapply triple_try_except.
    + eapply triple_conseq;
        [ apply truetype_triple; exact H2 | auto | | intros e w He; exact He ].
      simpl. intros f w (Hw & -> & ->). auto.
    + intros e2. apply triple_pure_pre. intros ->.
      apply (load_default_triple E). exact H3.
Qed.

Lemma text_width_triple font text px E :
  P (EvGetlength font text) ->
  triple (drawing P w0 r size) (text_width env font text px)
    (fun _ w => drawing P w0 r size w /\ True) E.
Proof.
  intros HP. unfold text_width. eapply triple_try_except.
  - apply getlength_triple. exact HP.
  - intros e1. apply triple_ret. auto.
Qed.

End Primitives.

Lemma Image_new_triple (P : ref -> event -> Prop) w0 size :
  triple (fun w => w = w0) (Image_new env "RGBA" (size, size) transparent)
    (fun r w => drawing (P r) w0 r size w) (propagated w0).
Proof.
  intros w ->. unfold Image_new, bind, log, raise; simpl.
  destruct (size <? 0) eqn:Hneg; simpl.
  - unfold propagated; simpl. repeat split; auto.
    exists [], (EvImageNew (fresh (dom (heap w0))) "RGBA" size size transparent).
    simpl. rewrite Hneg. auto.
  - destruct (new_error env size size) as [e | ] eqn:Hnew; simpl.
    + unfold propagated; simpl. repeat split; auto.
      exists [], (EvImageNew (fresh (dom (heap w0))) "RGBA" size size transparent).
      simpl. rewrite Hneg, Hnew. auto.
    + assert (Hfresh : heap w0 !! fresh (dom (heap w0)) = None).
      { apply not_elem_of_dom. apply is_fresh. }
      unfold drawing; simpl. repeat split; auto.
      * intros r' Hne. now rewrite lookup_insert_ne by congruence.
      * eexists _, []. rewrite lookup_insert_eq. simpl.
        repeat split; auto. lia.
Qed.

Ltac draw_side :=
  simpl; try (left; reflexivity); unfold icon_font; auto;
  try (split; [ solve [ auto ] | intros ?; eexists _, _, _, _;
                (split; [ reflexivity | Z.div_mod_to_equations; lia ]) ]).

Ltac draw_step :=
  eapply triple_seq;
  [ first [ apply Draw_triple | apply rounded_rectangle_triple
          | apply ellipse_triple | apply rectangle_triple
          | apply text_triple | apply select_font_triple
          | apply text_width_triple ];
    draw_side
  | cbv beta; intros ? ? ].

(** The whole of [create_terminal_icon]: a run that returns leaves the icon
    in the drawing state, and a run that raises does so from a call outside
    any [try]. *)
Lemma create_terminal_icon_triple w0 size :
  triple (fun w => w = w0) (create_terminal_icon env size)
    (fun r w => drawing (icon_call size r) w0 r size w) (propagated w0).
Proof.
  unfold create_terminal_icon. cbv zeta.
  eapply triple_bind; [ apply (Image_new_triple (icon_call size)) | ].
  intros img.
  do 13 draw_step.
  eapply triple_seq with
    (phi := fun f => icon_font size "pH7" f).
  { eapply triple_try_except.
    - eapply triple_conseq;
        [ apply (truetype_triple (icon_call size img) w0 img size)
        | auto | | intros e w Hd; exact Hd ].
      + simpl. right. auto.
      + intros f w (Hw & -> & _). split; [ exact Hw | ]. right. auto.
    - intros e. apply triple_pure_pre. intros _.
      apply triple_ret. intros w Hw. split; [ exact Hw | ].
      left. assumption. }
  intros logo_font Hlogo.
  draw_step.
  apply triple_ret. auto.
Qed.

(** ** Runs that return *)

Section Returns.

Variable r : ref.

Lemma log_live ev E :
  triple (live r) (log ev) (fun _ w => live r w /\ True) E.
Proof. intros w Hw. simpl. auto. Qed.

Lemma draw_call_returns {M} ev (res : result M) (upd : M -> Image -> Image) :
  is_ok res = true ->
  triple (live r) (log ev ;; m <- lift res ;; update_image r (upd m))
    (fun _ w => live r w /\ True) never.
Proof.
  intros Hok w [img Himg]. unfold bind, log, lift, update_image, deref, bind; simpl.
  destruct res as [m | e]; [ | discriminate Hok ]. simpl.
  rewrite Himg. simpl. split; [ | exact I ].
  unfold live; simpl. rewrite lookup_insert_eq. eauto.
Qed.

Lemma truetype_live path px :
  triple (live r) (ImageFont_truetype env path px)
    (fun _ w => live r w /\ True) (fun _ w => live r w).
Proof.
  unfold ImageFont_truetype. eapply triple_seq; [ apply log_live | ].
  intros _ _. destruct (truetype_error env path px).
  - apply triple_raise. auto.
  - apply triple_ret. auto.
Qed.

Lemma select_font_returns px :
  triple (live r) (select_font env px) (fun _ w => live r w /\ True) never.
Proof.
  unfold select_font. eapply triple_try_except; [ apply truetype_live | ].
  intros e1. eapply triple_try_except; [ apply truetype_live | ].
  intros e2. unfold ImageFont_load_default.
  eapply triple_seq; [ apply log_live | ].
  intros _ _. apply triple_ret. auto.
Qed.

Lemma text_width_returns font text px :
  triple (live r) (text_width env font text px)
    (fun _ w => live r w /\ True) never.
Proof.
  unfold text_width, font_getlength. eapply triple_try_except.
  - eapply triple_seq with (E := fun _ w => live r w); [ apply log_live | ].
    intros _ _. eapply triple_seq with (phi := fun _ => True).
    + intros w Hw. unfold lift. destruct (getlength env font text); auto.
    + intros l _. apply triple_ret. auto.
  - intros e. apply triple_ret. auto.
Qed.

End Returns.

Ltac returns_step :=
  eapply triple_seq;
  [ first [ apply select_font_returns | apply text_width_returns
          | apply draw_call_returns; auto ]
  | cbv beta; intros ? _ ].

Lemma create_terminal_icon_returns size :
  0 <= size -> new_error env size size = None -> draws_total ->
  triple (fun _ => True) (create_terminal_icon env size)
    (fun r w => live r w) never.
Proof.
  intros Hsize Hnew (Hrr & Hel & Hre & Htx).
  unfold create_terminal_icon. cbv zeta.
  eapply triple_bind with (Q1 := fun r w => live r w).
  { intros w _. unfold Image_new, bind, log, raise; simpl.
    destruct (size <? 0) eqn:Hneg; [ lia | ]. rewrite Hnew. simpl.
    unfold live; simpl. rewrite lookup_insert_eq. eauto. }
  intros img.
  eapply triple_seq with (phi := fun d => draw_im d = img).
  { unfold ImageDraw_Draw. eapply triple_seq; [ apply log_live | ].
    intros _ _. apply triple_ret. auto. }
  intros draw <-.
  unfold draw_rounded_rectangle, draw_ellipse, draw_rectangle, draw_text.
  do 12 returns_step.
  eapply triple_seq with (phi := fun _ => True).
  { eapply triple_try_except; [ apply truetype_live | ].
    intros e. apply triple_ret. auto. }
  intros logo_font _.
  returns_step.
  apply triple_ret. auto.
Qed.

(** ** The driver *)

Lemma bind_ret_unit (m : Py unit) w : (m ;; ret tt) w = m w.
Proof. unfold bind. destruct (m w) as [w' [[] | e]]; reflexivity. Qed.

(** The loop body is: draw the icon, then save it under each of its names. *)
Lemma main_body_eq size w :
  main_body env size w =
  (icon <- create_terminal_icon env size ;;
   for_each (save_names size) (fun n => Image_save env icon n "PNG")) w.
Proof.
  unfold main_body, save_names.
  destruct (size =? 32); [ | destruct (size =? 128); [ | destruct (size =? 512) ] ];
    simpl; unfold bind;
    (destruct (create_terminal_icon env size w) as [w1 [icon | e]];
     [ | reflexivity ]);
    repeat match goal with
           | |- context [Image_save env ?i ?n ?f ?w] =>
               destruct (Image_save env i n f w) as [? [[] | ?]]; try reflexivity
           end.
Qed.

(** One save, step by step. *)
Lemma Image_save_run icon name format w :
  Image_save env icon name format w =
  let w1 := {| heap := heap w; files := files w; stdout := stdout w;
               trace := (trace w ++ [EvSave icon name format])%list |} in
  match heap w !! icon with
  | None => (w1, Raise (Exn "ReferenceError"))
  | Some im =>
      match write_error env name with
      | Some e => (w1, Raise e)
      | None =>
          match encode env format im with
          | Raise e => (w1, Raise e)
          | Ok data => (set_files (<[name := data]> (files w)) w1, Ok tt)
          end
      end
  end.
Proof.
  unfold Image_save, bind, log, deref, lift; simpl.
  destruct (heap w !! icon) as [im | ]; [ | reflexivity ].
  destruct (write_error env name); [ reflexivity | ].
  now destruct (encode env format im).
Qed.

(** All the saves of one icon, when none raises. *)
Lemma save_all_ok icon img names : forall w w' u,
  heap w !! icon = Some img ->
  for_each names (fun n => Image_save env icon n "PNG") w = (w', Ok u) ->
  Forall (fun n => write_error env n = None) names /\
  (names = [] \/ exists data, encode env "PNG" img = Ok data /\
     files w' = foldl (fun f n => <[n := data]> f) (files w) names) /\
  (names = [] -> files w' = files w) /\
  heap w' = heap w /\ stdout w' = stdout w /\
  trace w' = (trace w ++ map (fun n => EvSave icon n "PNG") names)%list.
Proof.
  induction names as [ | n names IH ]; intros w w' u Himg Hrun; simpl in Hrun.
  - inversion Hrun; subst. simpl. rewrite app_nil_r. repeat split; auto.
  - unfold bind in Hrun. rewrite Image_save_run, Himg in Hrun. simpl in Hrun.
    destruct (write_error env n) eqn:Hwr; [ discriminate Hrun | ].
    destruct (encode env "PNG" img) as [data | e] eqn:Henc; [ | discriminate Hrun ].
    apply IH in Hrun; [ | exact Himg ].
    destruct Hrun as (Hall & Hfiles & Hnil & Hheap & Hout & Htrace).
    simpl in *. repeat split; auto.
    + right. exists data. split; [ reflexivity | ].
      destruct Hfiles as [-> | (data' & Hd & Hf)].
      * simpl. now apply Hnil.
      * assert (data' = data) as -> by congruence. exact Hf.
    + discriminate.
    + rewrite Htrace. now rewrite <- app_assoc.
Qed.

Lemma main_body_ok size w w' u :
  main_body env size w = (w', Ok u) -> round size w w'.
Proof.
  rewrite main_body_eq. unfold bind at 1.
  destruct (create_terminal_icon env size w) as [w1 [icon | e]] eqn:Hdraw;
    [ | discriminate ].
  intros Hsave.
  pose proof (triple_run _ _ _ _ _ _ _ (create_terminal_icon_triple w size)
                eq_refl Hdraw) as Hinv. simpl in Hinv.
  destruct Hinv as (Hf & Hs & Hfresh & Hother & img & D & Hr & Hm & Hw & Hh
                    & Ht & HD & HU & [Hsz Hnew] & Hpx).
  destruct (save_all_ok icon img _ _ _ _ Hr Hsave)
    as (Hall & Hfiles & _ & Hheap & Hout & Htrace).
  destruct Hfiles as [Hnil | (data & Henc & Hfiles)]; [ discriminate Hnil | ].
  exists icon, img, D, data. repeat split; auto; try congruence.
  - rewrite Hheap. apply map_eq. intros i.
    destruct (decide (i = icon)) as [-> | Hne].
    + now rewrite lookup_insert_eq.
    + rewrite lookup_insert_ne by congruence. auto.
  - rewrite Htrace, Ht. rewrite <- !app_assoc. reflexivity.
Qed.

Lemma for_each_main_body_ok l : forall w w' u,
  for_each l (main_body env) w = (w', Ok u) -> rounds l w w'.
Proof.
  induction l as [ | size l IH ]; intros w w' u Hrun; simpl in *.
  - now inversion Hrun.
  - unfold bind in Hrun.
    destruct (main_body env size w) as [w1 [u1 | e]] eqn:Hbody; [ | discriminate ].
    exists w1. split; [ eapply main_body_ok; eassumption | eapply IH; eassumption ].
Qed.

Lemma print_run line w :
  print env line w =
  match print_error env line with
  | Some e =>
      ({| heap := heap w; files := files w; stdout := stdout w;
          trace := (trace w ++ [EvPrint line])%list |}, Raise e)
  | None =>
      ({| heap := heap w; files := files w; stdout := (stdout w ++ [line])%list;
          trace := (trace w ++ [EvPrint line])%list |}, Ok tt)
  end.
Proof.
  unfold print, bind, log, raise. simpl.
  now destruct (print_error env line).
Qed.

(** The listing loop returns exactly when each of its lines can be
    printed. *)
Lemma report_run names : forall w,
  Forall (fun line => print_error env line = None) (report_lines names) ->
  for_each names (fun f => if endswith f ".png" then print env ("  " +:+ f) else ret tt) w
  = ({| heap := heap w; files := files w;
        stdout := (stdout w ++ report_lines names)%list;
        trace := (trace w ++ map EvPrint (report_lines names))%list |}, Ok tt).
Proof.
  induction names as [ | f names IH ]; intros w Hok; simpl.
  - unfold report_lines; simpl. rewrite !app_nil_r. now destruct w.
  - unfold report_lines, is_png in Hok. simpl in Hok.
    unfold bind, report_lines, is_png; simpl.
    destruct (endswith f ".png"); simpl.
    + inversion Hok as [ | ? ? Hf Hrest ]; subst.
      rewrite print_run, Hf, IH by exact Hrest. simpl.
      unfold report_lines, is_png. now rewrite <- !app_assoc.
    + rewrite IH by exact Hok. reflexivity.
Qed.

Lemma report_ok names : forall w w' u,
  for_each names (fun f => if endswith f ".png" then print env ("  " +:+ f) else ret tt) w
  = (w', Ok u) ->
  Forall (fun line => print_error env line = None) (report_lines names).
Proof.
  induction names as [ | f names IH ]; intros w w' u Hrun; simpl in Hrun.
  - constructor.
  - unfold bind in Hrun. unfold report_lines, is_png. simpl.
    destruct (endswith f ".png"); simpl in *.
    + rewrite print_run in Hrun.
      destruct (print_error env ("  " +:+ f)) eqn:Hf; [ discriminate Hrun | ].
      constructor; [ exact Hf | ]. eapply IH. exact Hrun.
    + eapply IH. exact Hrun.
Qed.

(** The part of [main] after the loop (lines 114-118), run from the world
    the loop left. *)
Lemma main_after_loop w w6 :
  for_each sizes (main_body env) w = (w6, Ok tt) ->
  main env w =
  (print env "Icons created successfully!" ;;
   print env "Files created:" ;;
   names <- os_listdir env ;;
   for_each names (fun f =>
     if endswith f ".png" then print env ("  " +:+ f) else ret tt)) w6.
Proof. intros Hloop. unfold main. unfold bind at 1. now rewrite Hloop. Qed.

(** The report returns when its lines can be printed and the directory can
    be listed. *)
Lemma report_returns w :
  Forall (fun line => print_error env line = None)
    (banner ++ report_lines (map fst (map_to_list (files w)))) ->
  listdir_error env = None ->
  (print env "Icons created successfully!" ;;
   print env "Files created:" ;;
   names <- os_listdir env ;;
   for_each names (fun f =>
     if endswith f ".png" then print env ("  " +:+ f) else ret tt)) w
  = ({| heap := heap w; files := files w;
        stdout := (stdout w ++ banner
                     ++ report_lines (map fst (map_to_list (files w))))%list;
        trace := (trace w ++ map EvPrint banner ++ [EvListdir]
                    ++ map EvPrint (report_lines (map fst (map_to_list (files w)))))%list |},
     Ok tt).
Proof.
  intros Hp Hl. unfold banner in Hp. simpl in Hp.
  inversion Hp as [ | ? ? Hp1 Hp' ]; subst.
  inversion Hp' as [ | ? ? Hp2 Hp3 ]; subst.
  unfold bind at 1. rewrite print_run, Hp1.
  unfold bind at 1. rewrite print_run, Hp2.
  unfold bind at 1. unfold os_listdir, bind, log. rewrite Hl. simpl.
  rewrite report_run by exact Hp3.
  simpl. now rewrite <- !app_assoc.
Qed.

(** A run of [main] that returns: six rounds, then the report. *)
Lemma main_ok w w' u :
  main env w = (w', Ok u) ->
  exists w6,
    rounds sizes w w6 /\ heap w' = heap w6 /\ files w' = files w6 /\
    stdout w' = (stdout w6 ++ banner
                   ++ report_lines (map fst (map_to_list (files w6))))%list /\
    trace w' = (trace w6 ++ map EvPrint banner ++ [EvListdir]
                  ++ map EvPrint (report_lines (map fst (map_to_list (files w6)))))%list.
Proof.
  unfold main. unfold bind at 1.
  destruct (for_each sizes (main_body env) w) as [w6 [u6 | e]] eqn:Hloop;
    [ | discriminate ].
  intros Hrun. exists w6. split; [ eapply for_each_main_body_ok; eassumption | ].
  unfold bind at 1 in Hrun. rewrite print_run in Hrun.
  destruct (print_error env "Icons created successfully!"); [ discriminate Hrun | ].
  unfold bind at 1 in Hrun. rewrite print_run in Hrun.
  destruct (print_error env "Files created:"); [ discriminate Hrun | ].
  unfold bind at 1 in Hrun. unfold os_listdir, bind, log in Hrun.
  destruct (listdir_error env); [ discriminate Hrun | ].
  simpl in Hrun.
  pose proof (report_ok _ _ _ _ Hrun) as Hok.
  rewrite report_run in Hrun by exact Hok. simpl in Hrun.
  inversion Hrun; subst; simpl.
  rewrite <- !app_assoc. simpl. repeat split; reflexivity.
Qed.

(** ** What the rounds leave behind *)

Lemma saved_names_app t1 t2 :
  saved_names (t1 ++ t2) = (saved_names t1 ++ saved_names t2)%list.
Proof. unfold saved_names. apply flat_map_app. Qed.

Lemma saved_names_drawing size icon D :
  Forall (icon_call size icon) D -> saved_names D = [].
Proof.
  unfold saved_names. induction 1 as [ | ev D Hev _ IH ]; [ reflexivity | ].
  simpl. rewrite IH. now destruct ev.
Qed.

Lemma saved_names_saves icon names :
  saved_names (map (fun n => EvSave icon n "PNG") names) = names.
Proof.
  unfold saved_names. induction names as [ | n names IH ]; simpl;
    [ reflexivity | now rewrite IH ].
Qed.

Lemma saved_names_prints lines : saved_names (map EvPrint lines) = [].
Proof.
  unfold saved_names. induction lines as [ | l lines IH ]; simpl;
    [ reflexivity | exact IH ].
Qed.

Lemma rounds_trace l : forall w w',
  rounds l w w' ->
  exists tr, trace w' = (trace w ++ tr)%list /\ sequential l tr.
Proof.
  induction l as [ | size l IH ]; intros w w' Hr; simpl in Hr.
  - subst. exists []. rewrite app_nil_r. split; [ reflexivity | constructor ].
  - destruct Hr as (w1 & Hround & Hrest).
    destruct Hround as (icon & img & D & data & _ & _ & _ & _ & _ & _ & _ & _
                        & _ & _ & Ht & HD & _).
    destruct (IH _ _ Hrest) as (tr & Htr & Hseq).
    eexists. split; [ | econstructor; eassumption ].
    rewrite Htr, Ht. rewrite <- !app_assoc. simpl. now rewrite <- !app_assoc.
Qed.

Lemma sequential_saved l tr :
  sequential l tr -> saved_names tr = flat_map save_names l.
Proof.
  induction 1 as [ | size l icon D tr HD _ IH ]; [ reflexivity | ].
  change (saved_names (EvImageNew icon "RGBA" size size transparent :: ?t))
    with (saved_names t).
  rewrite !saved_names_app, (saved_names_drawing _ _ _ HD), saved_names_saves, IH.
  reflexivity.
Qed.

Lemma rounds_stdout l : forall w w', rounds l w w' -> stdout w' = stdout w.
Proof.
  induction l as [ | size l IH ]; intros w w' Hr; simpl in Hr.
  - now subst.
  - destruct Hr as (w1 & Hround & Hrest).
    destruct Hround as (icon & img & D & data & _ & _ & _ & _ & _ & _ & _ & _
                        & _ & Hs & _).
    rewrite (IH _ _ Hrest). exact Hs.
Qed.

Lemma rounds_heap l : forall w w' r img,
  rounds l w w' -> heap w !! r = Some img -> heap w' !! r = Some img.
Proof.
  induction l as [ | size l IH ]; intros w w' r img Hr Hlive; simpl in Hr.
  - now subst.
  - destruct Hr as (w1 & Hround & Hrest).
    destruct Hround as (icon & img1 & D & data & Hfresh & Hheap & _).
    eapply IH; [ eassumption | ]. rewrite Hheap.
    rewrite lookup_insert_ne; [ assumption | ].
    intros ->. pose proof (eq_trans (eq_sym Hfresh) Hlive) as Hc. discriminate Hc.
Qed.

Lemma lookup_foldl_insert (data : list byte) names : forall (m : gmap string (list byte)) n,
  foldl (fun f k => <[k := data]> f) m names !! n
  = if bool_decide (n ∈ names) then Some data else m !! n.
Proof.
  induction names as [ | k names IH ]; intros m n; simpl.
  - reflexivity.
  - rewrite IH. destruct (decide (n = k)) as [-> | Hne].
    + rewrite (bool_decide_eq_true_2 (k ∈ k :: names)) by left.
      rewrite lookup_insert_eq. now destruct (bool_decide (k ∈ names)).
    + rewrite lookup_insert_ne by congruence.
      destruct (decide (n ∈ names)) as [Hin | Hnin].
      * rewrite !bool_decide_eq_true_2; auto. now right.
      * rewrite !bool_decide_eq_false_2; auto.
        intros Hin. apply elem_of_cons in Hin as [ | ]; contradiction.
Qed.

Lemma rounds_files_other l : forall w w' n,
  rounds l w w' -> n ∉ flat_map save_names l -> files w' !! n = files w !! n.
Proof.
  induction l as [ | size l IH ]; intros w w' n Hr Hn; simpl in Hr.
  - now subst.
  - destruct Hr as (w1 & Hround & Hrest).
    destruct Hround as (icon & img & D & data & _ & _ & _ & _ & _ & _ & _ & _
                        & Hf & _).
    change (flat_map save_names (size :: l))
      with (save_names size ++ flat_map save_names l)%list in Hn.
    apply not_elem_of_app in Hn as [Hn1 Hn2].
    rewrite (IH _ _ _ Hrest Hn2), Hf, lookup_foldl_insert.
    now rewrite bool_decide_eq_false_2.
Qed.

Lemma rounds_dom l : forall w w',
  rounds l w w' ->
  dom (files w') = dom (files w) ∪ list_to_set (flat_map save_names l).
Proof.
  intros w w' Hr. apply set_eq. intros n.
  rewrite elem_of_union, elem_of_list_to_set, !elem_of_dom.
  revert w w' Hr. induction l as [ | size l IH ]; intros w w' Hr; simpl in Hr.
  - subst. simpl. rewrite elem_of_nil. tauto.
  - destruct Hr as (w1 & Hround & Hrest).
    destruct Hround as (icon & img & D & data & _ & _ & _ & _ & _ & _ & _ & _
                        & Hf & _).
    change (flat_map save_names (size :: l))
      with (save_names size ++ flat_map save_names l)%list.
    rewrite (IH _ _ Hrest), Hf, lookup_foldl_insert, elem_of_app.
    destruct (decide (n ∈ save_names size)) as [Hin | Hnin].
    + rewrite bool_decide_eq_true_2 by assumption.
      split; [ auto | intros _; left; eauto ].
    + rewrite bool_decide_eq_false_2 by assumption. tauto.
Qed.

(** The round of one size, seen from the end of the loop: its icon is still
    the object it was when saved, every one of its files holds the encoding
    of that one object, and its saves are consecutive in the trace. *)
Lemma rounds_size l size : forall w w',
  rounds l w w' -> NoDup (flat_map save_names l) -> size ∈ l ->
  exists icon img data t1 t2,
    heap w' !! icon = Some img /\
    im_mode img = "RGBA" /\ im_width img = size /\ im_height img = size /\
    encode env "PNG" img = Ok data /\
    (forall n, n ∈ save_names size -> files w' !! n = Some data) /\
    trace w' = (trace w ++ t1 ++ map (fun n => EvSave icon n "PNG") (save_names size)
                  ++ t2)%list.
Proof.
  induction l as [ | size0 l IH ]; intros w w' Hr Hnd Hin; simpl in Hr.
  - now apply elem_of_nil in Hin.
  - destruct Hr as (w1 & Hround & Hrest).
    change (flat_map save_names (size0 :: l))
      with (save_names size0 ++ flat_map save_names l)%list in Hnd.
    apply NoDup_app in Hnd as (Hnd0 & Hdisj & Hndl).
    destruct (decide (size = size0)) as [-> | Hne].
    + destruct Hround as (icon & img & D & data & Hfresh & Hheap & Hm & Hwd & Hht
                          & _ & Henc & _ & Hf & _ & Ht & _).
      destruct (rounds_trace _ _ _ Hrest) as (tr & Htr & _).
      exists icon, img, data, (EvImageNew icon "RGBA" size0 size0 transparent :: D), tr.
      repeat split; auto.
      * eapply rounds_heap; [ eassumption | ]. rewrite Hheap. apply lookup_insert_eq.
      * intros n Hn. rewrite (rounds_files_other _ _ _ _ Hrest (Hdisj n Hn)).
        rewrite Hf, lookup_foldl_insert. now rewrite bool_decide_eq_true_2.
      * rewrite Htr, Ht. rewrite <- !app_assoc. simpl. now rewrite <- !app_assoc.
    + apply elem_of_cons in Hin as [ | Hin ]; [ contradiction | ].
      destruct (IH _ _ Hrest Hndl Hin)
        as (icon & img & data & t1 & t2 & Hlive & Hm & Hwd & Hht & Henc & Hf & Ht).
      destruct Hround as (icon0 & img0 & D0 & data0 & _ & _ & _ & _ & _ & _ & _ & _
                          & _ & _ & Ht0 & _).
      exists icon, img, data,
        ((EvImageNew icon0 "RGBA" size0 size0 transparent :: D0
            ++ map (fun n => EvSave icon0 n "PNG") (save_names size0)) ++ t1)%list, t2.
      repeat split; auto.
      rewrite Ht, Ht0. rewrite <- !app_assoc. reflexivity.
Qed.

(** ** Exceptions in the driver *)

(** A loop stops at the first round that raises. *)
Lemma for_each_raise {A} (body : A -> Py unit) pre x post : forall w w1 w2 u e,
  for_each pre body w = (w1, Ok u) ->
  body x w1 = (w2, Raise e) ->
  for_each (pre ++ x :: post) body w = (w2, Raise e).
Proof.
  induction pre as [ | y pre IH ]; intros w w1 w2 u e Hpre Hx; simpl in *.
  - inversion Hpre; subst. unfold bind. now rewrite Hx.
  - unfold bind in *. destruct (body y w) as [w' [u' | e']]; [ | discriminate ].
    eapply IH; eassumption.
Qed.

Lemma main_raise w w' e :
  for_each sizes (main_body env) w = (w', Raise e) -> main env w = (w', Raise e).
Proof. intros H. unfold main, bind. now rewrite H. Qed.

Lemma main_body_raise_draw size w w' e :
  create_terminal_icon env size w = (w', Raise e) ->
  main_body env size w = (w', Raise e).
Proof. intros H. rewrite main_body_eq. unfold bind. now rewrite H. Qed.

Lemma main_body_raise_save size w w1 icon pre n post w2 w3 u e :
  create_terminal_icon env size w = (w1, Ok icon) ->
  save_names size = (pre ++ n :: post)%list ->
  for_each pre (fun n => Image_save env icon n "PNG") w1 = (w2, Ok u) ->
  Image_save env icon n "PNG" w2 = (w3, Raise e) ->
  main_body env size w = (w3, Raise e).
Proof.
  intros Hdraw Hnames Hpre Hn. rewrite main_body_eq. unfold bind.
  rewrite Hdraw, Hnames. eapply for_each_raise; eassumption.
Qed.

(** Inside [create_terminal_icon], a call outside any [try] that raises ends
    the run with its exception. *)
Lemma create_terminal_icon_propagates size w w' res t1 ev t2 e :
  create_terminal_icon env size w = (w', res) ->
  trace w' = (trace w ++ t1 ++ ev :: t2)%list ->
  guarded ev = false -> call_error ev = Some e ->
  t2 = [] /\ res = Raise e.
Proof.
  intros Hrun Ht Hg He. destruct res as [icon | e'].
  - pose proof (triple_run _ _ _ _ _ _ _ (create_terminal_icon_triple w size)
                  eq_refl Hrun) as Hinv. simpl in Hinv.
    destruct Hinv as (_ & _ & _ & _ & img & D & _ & _ & _ & _ & Ht' & _ & HU
                      & [Hsz Hnew] & _).
    rewrite Ht in Ht'. apply app_inv_head in Ht'.
    assert (Hall : Forall unraised (EvImageNew icon "RGBA" size size transparent :: D)).
    { constructor; [ | exact HU ]. intros _. simpl.
      destruct (size <? 0) eqn:Hlt; [ lia | exact Hnew ]. }
    rewrite <- Ht' in Hall. apply Forall_app in Hall as [_ Hall].
    inversion Hall as [ | ? ? Hev _ ]; subst. specialize (Hev Hg). congruence.
  - pose proof (triple_run_raise _ _ _ _ _ _ _ (create_terminal_icon_triple w size)
                  eq_refl Hrun) as Hp.
    destruct Hp as (_ & _ & D & ev' & Ht' & HU & Hg' & He').
    rewrite Ht in Ht'. apply app_inv_head in Ht'.
    destruct t2 as [ | x t2 ] using rev_ind.
    + apply app_inj_tail in Ht' as [_ ->]. split; [ reflexivity | congruence ].
    + clear IHt2. change (t1 ++ ev :: t2 ++ [x])%list
        with (t1 ++ (ev :: t2) ++ [x])%list in Ht'.
      rewrite app_assoc in Ht'. apply app_inj_tail in Ht' as [<- _].
      apply Forall_app in HU as [_ HU]. inversion HU as [ | ? ? Hev _ ]; subst.
      specialize (Hev Hg). congruence.
Qed.

(** ** Runs of the driver that return *)

Lemma save_all_returns icon img names : forall w,
  (forall n, n ∈ names -> write_error env n = None) ->
  is_ok (encode env "PNG" img) = true ->
  heap w !! icon = Some img ->
  exists w', for_each names (fun n => Image_save env icon n "PNG") w = (w', Ok tt).
Proof.
  intros w Hwr Henc. revert w.
  induction names as [ | n names IH ]; intros w Himg; simpl.
  - eexists. reflexivity.
  - unfold bind. rewrite Image_save_run, Himg, (Hwr n) by left. simpl.
    destruct (encode env "PNG" img) as [data | e]; [ | discriminate Henc ].
    apply IH; [ | exact Himg ].
    intros k Hk. apply Hwr. now right.
Qed.

Lemma main_body_returns size w :
  draws_total -> encoder_total ->
  (forall n, n ∈ save_names size -> write_error env n = None) ->
  0 <= size < 2147483648 -> new_error env size size = None ->
  exists w', main_body env size w = (w', Ok tt).
Proof.
  intros Hdraw Henc Hwr Hsize Hnew.
  destruct (triple_returns _ _ _ w
              (create_terminal_icon_returns size (proj1 Hsize) Hnew Hdraw) I)
    as (w1 & icon & Hrun & _).
  pose proof (triple_run _ _ _ _ _ _ _ (create_terminal_icon_triple w size)
                eq_refl Hrun) as Hinv. simpl in Hinv.
  destruct Hinv as (_ & _ & _ & _ & img & D & Hr & _ & Hwd & Hht & _).
  rewrite main_body_eq. unfold bind. rewrite Hrun.
  eapply save_all_returns; eauto.
  apply Henc; lia.
Qed.

Lemma main_returns w :
  draws_total -> saves_total -> system_total ->
  exists w', main env w = (w', Ok tt).
Proof.
  intros Hdraw [Hwr Henc] (Hnew & Hprint & Hlist).
  assert (Hloop : forall l w,
            Forall (fun s => 0 <= s < 2147483648) l ->
            Forall (fun s => new_error env s s = None) l ->
            exists w', for_each l (main_body env) w = (w', Ok tt)).
  { induction l as [ | s l IH ]; intros w0 Hl Hn; simpl.
    - eexists. reflexivity.
    - inversion Hl as [ | ? ? Hs Hl' ]; inversion Hn as [ | ? ? Hs' Hn' ]; subst.
      destruct (main_body_returns s w0 Hdraw Henc (fun n _ => Hwr n) Hs Hs')
        as (w1 & Hw1).
      unfold bind. rewrite Hw1. apply IH; assumption. }
  destruct (Hloop sizes w) as (w6 & Hw6); [ | exact Hnew | ].
  { unfold sizes. repeat constructor; lia. }
  rewrite (main_after_loop _ _ Hw6), report_returns.
  - eexists. reflexivity.
  - apply Forall_forall. intros line _. apply Hprint.
  - exact Hlist.
Qed.

End Drawing.

(** ** The reference environment obeys the library laws *)

Lemma ref_rounded_in_box s : rounded_in_box (ref_env s).
Proof.
  intros x0 y0 x1 y1 radius fill outline width m x y Hm [c Hc].
  simpl in Hm. unfold ref_rounded_rectangle in Hm.
  destruct (box_ok _ _); [ | discriminate Hm ].
  inversion Hm; subst; clear Hm.
  destruct (in_rounded _ radius x y) eqn:Hin; [ | discriminate Hc ].
  unfold in_rounded, in_box in Hin. simpl in Hin.
  apply andb_true_iff in Hin as [Hin _].
  repeat (apply andb_true_iff in Hin as [Hin ?]). lia.
Qed.

Lemma ref_draws_total s : strict_boxes s = false -> draws_total (ref_env s).
Proof.
  intros Hs. unfold draws_total; simpl.
  unfold ref_rounded_rectangle, ref_ellipse, ref_rectangle, ref_text, box_ok.
  rewrite Hs. simpl. auto.
Qed.

Lemma Z_of_byte_of_Z z : Z_of_byte (byte_of_Z z) = z mod 256.
Proof.
  unfold Z_of_byte, byte_of_Z.
  assert (Hlt : 0 <= z mod 256 < 256) by (apply Z.mod_pos_bound; lia).
  destruct (Byte.of_N (Z.to_N (z mod 256))) as [b | ] eqn:Hb.
  - apply Byte.to_of_N in Hb. rewrite Hb. lia.
  - apply Byte.of_N_None_iff in Hb. lia.
Qed.

Lemma un_be32_be32 z : 0 <= z < 4294967296 -> un_be32 (be32 z) = z.
Proof.
  intros Hz. unfold un_be32, be32. rewrite !Z_of_byte_of_Z.
  Z.div_mod_to_equations. lia.
Qed.

Lemma length_bind_const {A B} (f : A -> list B) (k : nat) (l : list A) :
  (forall x, length (f x) = k) -> length (l ≫= f) = (length l * k)%nat.
Proof.
  intros Hf. induction l as [ | x l IH ]; [ reflexivity | ].
  change ((x :: l) ≫= f) with (f x ++ (l ≫= f))%list.
  rewrite length_app, Hf, IH. simpl. lia.
Qed.

Lemma length_raster_bytes img :
  0 <= im_width img -> 0 <= im_height img ->
  Z.of_nat (length (raster_bytes img)) = 4 * (im_width img * im_height img).
Proof.
  intros Hw Hh. unfold raster_bytes.
  rewrite (length_bind_const _ (Z.to_nat (im_width img) * 4)).
  - rewrite length_seqZ. lia.
  - intros y. rewrite (length_bind_const _ 4).
    + now rewrite length_seqZ.
    + intros x. now destruct (im_data img x y) as [[[? ?] ?] ?].
Qed.

Lemma ref_png_roundtrip s : png_roundtrip (ref_env s).
Proof.
  intros img data Hmode Henc. simpl in *. unfold ref_encode in Henc. simpl in Henc.
  destruct ((2147483648 <=? im_width img) || (2147483648 <=? im_height img)
            || (im_width img <? 0) || (im_height img <? 0)) eqn:Hdim;
    [ discriminate Henc | ].
  repeat (apply orb_false_iff in Hdim as [Hdim ?]).
  inversion Henc; subst; clear Henc.
  unfold ref_png_decode. cbn [png_signature app take drop].
  change (take 0 (raster_bytes img)) with (@nil byte).
  change (drop 0 (raster_bytes img)) with (raster_bytes img).
  fold (be32 (im_width img)). fold (be32 (im_height img)).
  rewrite !un_be32_be32 by lia.
  rewrite bool_decide_eq_true_2 by reflexivity.
  rewrite length_raster_bytes by lia. rewrite Z.eqb_refl. simpl.
  eexists. split; [ reflexivity | ]. simpl. auto.
Qed.

Lemma ref_encoder_total s : encoder_total (ref_env s).
Proof.
  intros img Hwd Hht. simpl. unfold ref_encode. simpl.
  destruct (2147483648 <=? im_width img) eqn:H1; [ lia | ].
  destruct (2147483648 <=? im_height img) eqn:H2; [ lia | ].
  destruct (im_width img <? 0) eqn:H3; [ lia | ].
  destruct (im_height img <? 0) eqn:H4; [ lia | ]. reflexivity.
Qed.

Lemma ref_saves_total s :
  (forall n, unwritable s n = false) -> saves_total (ref_env s).
Proof.
  intros Hw. split; [ | apply ref_encoder_total ].
  intros n. simpl. now rewrite Hw.
Qed.

Lemma ref_system_total s :
  (forall line, unprintable s line = false) -> system_total (ref_env s).
Proof.
  intros Hp. repeat split.
  - unfold sizes. repeat constructor.
  - intros line. simpl. now rewrite Hp.
Qed.

(** ** The exact effect of [create_terminal_icon] *)

Section Exact.

Variables (env : Pillow) (w0 : World) (r : ref) (size : Z) (L : list event).

Lemma painting_snoc D ev :
  painting env size (D ++ [ev]) = paint env ev (painting env size D).
Proof. unfold painting. now rewrite fold_left_app. Qed.

Lemma painted_log D ev E :
  (forall img, paint env ev img = img) ->
  triple (fun w => w = painted env w0 r size D) (log ev) (fun _ w => w = painted env w0 r size (D ++ [ev]) /\ True) E.
Proof.
  intros Hid w ->. simpl. split; [ | exact I ].
  unfold painted. simpl. rewrite painting_snoc, Hid. now rewrite <- app_assoc.
Qed.

Lemma painted_draw {M} D ev (res : result M) (upd : M -> Image -> Image) :
  In ev L -> guarded ev = false ->
  call_error env ev = match res with Ok _ => None | Raise e => Some e end ->
  (forall m img, res = Ok m -> paint env ev img = upd m img) ->
  triple (fun w => w = painted env w0 r size D) (log ev ;; m <- lift res ;; update_image r (upd m))
    (fun _ w => w = painted env w0 r size (D ++ [ev]) /\ True)
    (fun e _ => refused env L e).
Proof.
  intros Hin Hg Herr Hpaint w ->.
  unfold bind, log, lift, update_image, deref, bind; simpl.
  destruct res as [m | e]; simpl.
  - rewrite lookup_insert_eq. simpl. split; [ | exact I ].
    unfold painted, set_heap. simpl.
    rewrite painting_snoc, (Hpaint m _ eq_refl), insert_insert_eq.
    now rewrite <- app_assoc.
  - exists ev. auto.
Qed.

Lemma painted_Draw D E :
  triple (fun w => w = painted env w0 r size D) (ImageDraw_Draw r)
    (fun d w => w = painted env w0 r size (D ++ [EvDraw r]) /\ draw_im d = r) E.
Proof.
  unfold ImageDraw_Draw.
  eapply triple_bind; [ apply painted_log; reflexivity | ].
  intros []. apply triple_pure_pre. intros _. apply triple_ret. auto.
Qed.

Lemma painted_truetype D path px :
  triple (fun w => w = painted env w0 r size D) (ImageFont_truetype env path px)
    (fun f w => w = painted env w0 r size (D ++ [EvTruetype path px]) /\
                (f = TrueType path px /\ truetype_error env path px = None))
    (fun e w => w = painted env w0 r size (D ++ [EvTruetype path px]) /\
                truetype_error env path px = Some e).
Proof.
  unfold ImageFont_truetype.
  eapply triple_bind; [ apply painted_log; reflexivity | ].
  intros []. apply triple_pure_pre. intros _.
  destruct (truetype_error env path px).
  - apply triple_raise. auto.
  - apply triple_ret. auto.
Qed.

Lemma painted_select_font D px E :
  triple (fun w => w = painted env w0 r size D) (select_font env px)
    (fun f w => w = painted env w0 r size (D ++ font_attempts env px) /\
                f = chosen_font env px) E.
Proof.
  unfold select_font, chosen_font, font_attempts.
  eapply triple_try_except.
  - eapply triple_conseq;
      [ apply (painted_truetype D) | auto | | intros e w He; exact He ].
    simpl. intros f w (-> & -> & ->). auto.
  - intros e1. apply triple_pure_pre. intros ->.
    eapply triple_try_except.
    + eapply triple_conseq;
        [ apply (painted_truetype (D ++ [EvTruetype monaco_path px]))
        | auto | | intros e w He; exact He ].
      simpl. intros f w (-> & -> & ->). rewrite <- app_assoc. auto.
    + intros e2. apply triple_pure_pre. intros ->.
      unfold ImageFont_load_default.
      eapply triple_bind; [ apply painted_log; reflexivity | ].
      intros []. apply triple_pure_pre. intros _.
      apply triple_ret. intros w ->.
      rewrite <- !app_assoc. auto.
Qed.

Lemma painted_text_width D font text px E :
  triple (fun w => w = painted env w0 r size D) (text_width env font text px)
    (fun v w => w = painted env w0 r size (D ++ [EvGetlength font text]) /\
                v = measured env font text px) E.
Proof.
  unfold text_width, font_getlength, measured.
  eapply triple_try_except with
    (E1 := fun _ w => w = painted env w0 r size (D ++ [EvGetlength font text]) /\
                      is_ok (getlength env font text) = false).
  - eapply triple_bind; [ apply painted_log; reflexivity | ].
    intros []. apply triple_pure_pre. intros _.
    intros w ->. unfold bind, lift, ret.
    destruct (getlength env font text); simpl; auto.
  - intros e. apply triple_pure_pre. intros Hfail.
    apply triple_ret. intros w ->.
    destruct (getlength env font text); [ discriminate Hfail | auto ].
Qed.

Lemma painted_logo_font D px font E :
  triple (fun w => w = painted env w0 r size D)
    (try_except (ImageFont_truetype env monaco_path (px + 4)) (ret font))
    (fun f w => w = painted env w0 r size (D ++ [EvTruetype monaco_path (px + 4)]) /\
                f = logo_face env px font) E.
Proof.
  unfold logo_face.
  eapply triple_try_except.
  - eapply triple_conseq;
      [ apply (painted_truetype D) | auto | | intros e w He; exact He ].
    simpl. intros f w (-> & -> & ->). auto.
  - intros e. apply triple_pure_pre. intros ->.
    apply triple_ret. auto.
Qed.

Lemma painted_rounded_rectangle D d xy radius fill outline width :
  draw_im d = r -> In (EvRoundedRectangle r xy radius fill outline width) L ->
  triple (fun w => w = painted env w0 r size D)
    (draw_rounded_rectangle env d xy radius fill outline width)
    (fun _ w => w = painted env w0 r size
                      (D ++ [EvRoundedRectangle r xy radius fill outline width]) /\ True)
    (fun e _ => refused env L e).
Proof.
  unfold draw_rounded_rectangle. intros -> Hin.
  apply painted_draw; auto.
  intros m img Hm. simpl. now rewrite Hm.
Qed.

Lemma painted_ellipse D d xy fill :
  draw_im d = r -> In (EvEllipse r xy fill) L ->
  triple (fun w => w = painted env w0 r size D) (draw_ellipse env d xy fill)
    (fun _ w => w = painted env w0 r size (D ++ [EvEllipse r xy fill]) /\ True)
    (fun e _ => refused env L e).
Proof.
  unfold draw_ellipse. intros -> Hin.
  apply painted_draw; auto.
  intros m img Hm. simpl. now rewrite Hm.
Qed.

Lemma painted_rectangle D d xy fill :
  draw_im d = r -> In (EvRectangle r xy fill) L ->
  triple (fun w => w = painted env w0 r size D) (draw_rectangle env d xy fill)
    (fun _ w => w = painted env w0 r size (D ++ [EvRectangle r xy fill]) /\ True)
    (fun e _ => refused env L e).
Proof.
  unfold draw_rectangle. intros -> Hin.
  apply painted_draw; auto.
  intros m img Hm. simpl. now rewrite Hm.
Qed.

Lemma painted_text D d xy text fill font :
  draw_im d = r -> In (EvText r xy text fill font) L ->
  triple (fun w => w = painted env w0 r size D) (draw_text env d xy text fill font)
    (fun _ w => w = painted env w0 r size (D ++ [EvText r xy text fill font]) /\ True)
    (fun e _ => refused env L e).
Proof.
  unfold draw_text. intros -> Hin.
  apply painted_draw; auto.
  intros m img Hm. simpl. now rewrite Hm.
Qed.

End Exact.

Ltac in_icon_trace :=
  right; unfold icon_trace; cbv zeta; simpl; rewrite ?in_app_iff; simpl; auto 30.

Ltac exact_step :=
  eapply triple_bind;
  [ first [ apply painted_Draw
          | apply painted_rounded_rectangle; [ assumption | in_icon_trace ]
          | apply painted_ellipse; [ assumption | in_icon_trace ]
          | apply painted_rectangle; [ assumption | in_icon_trace ]
          | apply painted_text; [ assumption | in_icon_trace ]
          | apply painted_select_font
          | apply painted_text_width
          | apply painted_logo_font ]
  | intros ?; apply triple_pure_pre; intros ?; subst ].

(** A run of [create_terminal_icon] that returns has allocated the canvas,
    made the calls of [icon_trace] and painted each on it; a run that raises
    was refused the allocation or one of these calls outside a [try]. *)
Lemma create_terminal_icon_effect env size w :
  triple (fun w1 => w1 = w) (create_terminal_icon env size)
    (fun icon w' =>
       icon = fresh (dom (heap w)) /\
       (0 <= size /\ new_error env size size = None) /\
       w' = painted env w icon size (icon_trace env size icon))
    (fun e _ =>
       refused env
         (EvImageNew (fresh (dom (heap w))) "RGBA" size size transparent
            :: icon_trace env size (fresh (dom (heap w)))) e).
Proof.
  set (r := fresh (dom (heap w))).
  unfold create_terminal_icon. cbv zeta.
  eapply triple_bind with
    (Q1 := fun icon w1 =>
             w1 = painted env w r size [] /\
             (icon = r /\ 0 <= size /\ new_error env size size = None)).
  { intros w1 ->. unfold Image_new, bind, log, raise; simpl. fold r.
    destruct (size <? 0) eqn:Hneg; simpl.
    - exists (EvImageNew r "RGBA" size size transparent). simpl.
      rewrite Hneg. auto.
    - destruct (new_error env size size) as [e | ] eqn:Hnew; simpl.
      + exists (EvImageNew r "RGBA" size size transparent). simpl.
        rewrite Hneg, Hnew. auto.
      + repeat split; auto. lia. }
  intros img. apply triple_pure_pre. intros (-> & Hsize & Hnew).
  do 15 exact_step.
  subst.
  apply triple_ret. intros w1 ->. repeat split; auto.
  f_equal. unfold icon_trace. cbv zeta. rewrite <- !app_assoc. reflexivity.
Qed.

Lemma create_terminal_icon_exact env size w w' icon :
  create_terminal_icon env size w = (w', Ok icon) ->
  icon = fresh (dom (heap w)) /\
  (0 <= size /\ new_error env size size = None) /\
  w' = painted env w icon size (icon_trace env size icon).
Proof.
  intros Hrun.
  exact (triple_run _ _ _ _ _ _ _ (create_terminal_icon_effect env size w) eq_refl Hrun).
Qed.

Lemma create_terminal_icon_refused env size w w' e :
  create_terminal_icon env size w = (w', Raise e) ->
  refused env
    (EvImageNew (fresh (dom (heap w))) "RGBA" size size transparent
       :: icon_trace env size (fresh (dom (heap w)))) e.
Proof.
  intros Hrun.
  exact (triple_run_raise _ _ _ _ _ _ _ (create_terminal_icon_effect env size w)
           eq_refl Hrun).
Qed.

(** The calls of a run that returned were all accepted. *)
Lemma create_terminal_icon_was_accepted env size w w' icon :
  create_terminal_icon env size w = (w', Ok icon) -> accepts env size icon.
Proof.
  intros Hrun.
  destruct (create_terminal_icon_exact _ _ _ _ _ Hrun) as (_ & [Hsize Hnew] & ->).
  pose proof (triple_run _ _ _ _ _ _ _ (create_terminal_icon_triple env w size)
                eq_refl Hrun) as Hinv.
  destruct Hinv as (_ & _ & _ & _ & img & D & _ & _ & _ & _ & Ht & _ & HU & _).
  simpl in Ht. apply app_inv_head in Ht. inversion Ht; subst D.
  constructor; [ | exact HU ].
  intros _. simpl. destruct (size <? 0) eqn:Hneg; [ lia | exact Hnew ].
Qed.

(** When the library accepts its calls, [create_terminal_icon] returns. *)
Lemma create_terminal_icon_accepted env size w :
  accepts env size (fresh (dom (heap w))) ->
  exists w', create_terminal_icon env size w = (w', Ok (fresh (dom (heap w)))).
Proof.
  intros Hacc.
  destruct (create_terminal_icon env size w) as [w' [icon | e]] eqn:Hrun.
  - destruct (create_terminal_icon_exact _ _ _ _ _ Hrun) as (-> & _).
    eauto.
  - destruct (create_terminal_icon_refused _ _ _ _ _ Hrun) as (ev & Hin & Hg & He).
    unfold accepts in Hacc. rewrite Forall_forall in Hacc.
    apply list_elem_of_In in Hin. specialize (Hacc ev Hin Hg). congruence.
Qed.

(** Painting a call keeps mode and dimensions, and leaves a transparent
    pixel it does not cover transparent. *)
Lemma paint_shape env ev img :
  im_mode (paint env ev img) = im_mode img /\
  im_width (paint env ev img) = im_width img /\
  im_height (paint env ev img) = im_height img.
Proof.
  destruct ev; simpl; auto.
  - now destruct (rounded_rectangle_mask env xy radius fill outline width).
  - now destruct (ellipse_mask env xy fill).
  - now destruct (rectangle_mask env xy fill).
  - now destruct (text_mask env font text xy).
Qed.

Lemma paint_keeps env ev img x y :
  covers env ev x y = false -> im_data img x y = transparent ->
  im_data (paint env ev img) x y = transparent.
Proof.
  intros Hcov Hp. destruct ev; simpl in *; auto.
  - destruct (rounded_rectangle_mask env xy radius fill outline width) as [m | e];
      [ | exact Hp ].
    rewrite put_keeps; [ exact Hp | now destruct (m x y) ].
  - destruct (ellipse_mask env xy fill) as [m | e]; [ | exact Hp ].
    rewrite put_keeps; [ exact Hp | now destruct (m x y) ].
  - destruct (rectangle_mask env xy fill) as [m | e]; [ | exact Hp ].
    rewrite put_keeps; [ exact Hp | now destruct (m x y) ].
  - destruct (text_mask env font text xy) as [cov | e]; [ | exact Hp ].
    apply put_text_keeps; [ | exact Hp ].
    apply negb_false_iff in Hcov. lia.
Qed.

(** The canvas after any calls is RGBA of the requested size, and a pixel
    none of the calls covers is transparent. *)
Lemma painting_shape env size D :
  im_mode (painting env size D) = "RGBA" /\
  im_width (painting env size D) = size /\
  im_height (painting env size D) = size /\
  forall x y, Forall (fun ev => covers env ev x y = false) D ->
              im_data (painting env size D) x y = transparent.
Proof.
  induction D as [ | ev D IH ] using rev_ind.
  - repeat split; reflexivity.
  - rewrite painting_snoc. destruct IH as (Hm & Hw & Hh & Hpx).
    destruct (paint_shape env ev (painting env size D)) as (Hm' & Hw' & Hh').
    repeat split; try congruence.
    intros x y Hc. apply Forall_app in Hc as [Hc1 Hc2].
    inversion Hc2; subst. apply paint_keeps; auto.
Qed.

(** One round of the loop of [main] that returned is a finished round. *)
Lemma main_body_finished env size w w' u :
  main_body env size w = (w', Ok u) -> finished_round env size w w'.
Proof.
  rewrite main_body_eq. unfold bind at 1.
  destruct (create_terminal_icon env size w) as [w1 [icon | e]] eqn:Hdraw;
    [ | discriminate ].
  intros Hsave.
  pose proof (create_terminal_icon_was_accepted _ _ _ _ _ Hdraw) as Hacc.
  destruct (create_terminal_icon_exact _ _ _ _ _ Hdraw) as (Hicon & _ & ->).
  assert (Hlive : heap (painted env w icon size (icon_trace env size icon)) !! icon
                  = Some (render env size icon)).
  { simpl. now rewrite lookup_insert_eq. }
  destruct (save_all_ok env icon _ _ _ _ _ Hlive Hsave)
    as (Hall & Hfiles & _ & Hheap & Hout & Htrace).
  destruct Hfiles as [Hnil | (data & Henc & Hfiles)]; [ discriminate Hnil | ].
  exists icon, data. repeat split; auto.
  destruct w' as [h f o t]. simpl in *. subst h f o t.
  f_equal. rewrite <- app_assoc. reflexivity.
Qed.

Lemma for_each_main_body_finished env l : forall w w' u,
  for_each l (main_body env) w = (w', Ok u) -> finished_rounds env l w w'.
Proof.
  induction l as [ | size l IH ]; intros w w' u Hrun; simpl in *.
  - now inversion Hrun.
  - unfold bind in Hrun.
    destruct (main_body env size w) as [w1 [u1 | e]] eqn:Hbody; [ | discriminate ].
    exists w1. split; [ eapply main_body_finished; eassumption | eapply IH; eassumption ].
Qed.

(** A run of [main] that returns: the loop returned, and then every line of
    the report was printed and the directory was listed. *)
Lemma main_finished env w w' u :
  main env w = (w', Ok u) ->
  exists w6,
    for_each sizes (main_body env) w = (w6, Ok tt) /\
    heap w' = heap w6 /\ files w' = files w6 /\
    stdout w' = (stdout w6 ++ banner
                   ++ report_lines (map fst (map_to_list (files w6))))%list /\
    trace w' = (trace w6 ++ map EvPrint banner ++ [EvListdir]
                  ++ map EvPrint (report_lines (map fst (map_to_list (files w6)))))%list /\
    Forall (unraised env)
      (map EvPrint banner ++ [EvListdir]
         ++ map EvPrint (report_lines (map fst (map_to_list (files w6)))))%list.
Proof.
  unfold main. unfold bind at 1.
  destruct (for_each sizes (main_body env) w) as [w6 [[] | e]] eqn:Hloop;
    [ | discriminate ].
  intros Hrun. exists w6. split; [ reflexivity | ].
  unfold bind at 1 in Hrun. rewrite print_run in Hrun.
  destruct (print_error env "Icons created successfully!") eqn:Hp1;
    [ discriminate Hrun | ].
  unfold bind at 1 in Hrun. rewrite print_run in Hrun.
  destruct (print_error env "Files created:") eqn:Hp2; [ discriminate Hrun | ].
  unfold bind at 1 in Hrun. unfold os_listdir, bind, log in Hrun.
  destruct (listdir_error env) eqn:Hl; [ discriminate Hrun | ].
  simpl in Hrun.
  pose proof (report_ok _ _ _ _ _ Hrun) as Hok.
  rewrite report_run in Hrun by exact Hok. simpl in Hrun.
  inversion Hrun; subst; simpl.
  rewrite <- !app_assoc. simpl. repeat split; try reflexivity.
  constructor; [ intros _; exact Hp1 | ].
  constructor; [ intros _; exact Hp2 | ].
  constructor; [ intros _; exact Hl | ].
  apply Forall_forall. intros ev Hev.
  apply list_elem_of_In, in_map_iff in Hev as (line & <- & Hline).
  intros _. simpl. rewrite Forall_forall in Hok. apply Hok.
  now apply list_elem_of_In.
Qed.

(** In finished rounds no call outside a [try] failed. *)
Lemma finished_rounds_unraised env l : forall w w',
  finished_rounds env l w w' ->
  exists t, trace w' = (trace w ++ t)%list /\ Forall (unraised env) t.
Proof.
  induction l as [ | size l IH ]; intros w w' Hfin; simpl in Hfin.
  - subst. exists []. split; [ now rewrite app_nil_r | constructor ].
  - destruct Hfin as (w1 & (icon & data & _ & Hacc & _ & Hwr & ->) & Hrest).
    destruct (IH _ _ Hrest) as (t & Ht & HU). cbn [trace] in Ht.
    eexists. split; [ rewrite Ht, <- app_assoc; reflexivity | ].
    apply Forall_app. split; [ | exact HU ].
    change (EvImageNew icon "RGBA" size size transparent
              :: icon_trace env size icon
              ++ map (fun n => EvSave icon n "PNG") (save_names size))%list
      with ((EvImageNew icon "RGBA" size size transparent :: icon_trace env size icon)
              ++ map (fun n => EvSave icon n "PNG") (save_names size))%list.
    apply Forall_app. split; [ exact Hacc | ].
    apply Forall_forall. intros ev Hev.
    apply list_elem_of_In, in_map_iff in Hev as (n & <- & Hn).
    intros _. simpl. rewrite Forall_forall in Hwr. apply Hwr.
    now apply list_elem_of_In.
Qed.

(** A run of [main] that returned met no failure outside a [try]. *)
Lemma main_unraised env w w' u :
  main env w = (w', Ok u) ->
  exists t, trace w' = (trace w ++ t)%list /\ Forall (unraised env) t.
Proof.
  intros Hrun.
  destruct (main_finished _ _ _ _ Hrun) as (w6 & Hloop & _ & _ & _ & Htrace & HU).
  destruct (finished_rounds_unraised _ _ _ _ (for_each_main_body_finished _ _ _ _ _ Hloop))
    as (t & Ht & HU').
  eexists. split; [ rewrite Htrace, Ht, <- app_assoc; reflexivity | ].
  apply Forall_app. auto.
Qed.

(** * The claims of the specification *)

Lemma create_terminal_icon_ok env size w w' icon :
  create_terminal_icon env size w = (w', Ok icon) ->
  drawing env (icon_call env size icon) w icon size w'.
Proof.
  intros Hrun.
  exact (triple_run _ _ _ _ _ _ _ (create_terminal_icon_triple env w size) eq_refl Hrun).
Qed.

(** ** C1: the icon is a square RGBA image of the requested size *)

(** Below 6 pixels the title bar is asked for with its right edge
    [size - margin - 3] left of its left edge [margin + 3]: a library that
    refuses such a box ends the run. *)
Lemma title_bar_refused env size w :
  refuses_inverted env -> size < 6 ->
  exists e, snd (create_terminal_icon env size w) = Raise e.
Proof.
  intros Hlaw Hsize.
  destruct (create_terminal_icon env size w) as [w' [icon | e]] eqn:Hrun;
    [ exfalso | eauto ].
  pose proof (create_terminal_icon_was_accepted _ _ _ _ _ Hrun) as Hacc.
  unfold accepts, icon_trace in Hacc. cbv zeta in Hacc.
  inversion Hacc as [ | ? ? _ H1 ]; subst.
  inversion H1 as [ | ? ? _ H2 ]; subst.
  inversion H2 as [ | ? ? _ H3 ]; subst.
  inversion H3 as [ | ? ? Hbar _ ]; subst.
  specialize (Hbar eq_refl). simpl in Hbar.
  pose proof (Hlaw (size / 10 + 3) (size / 10 + 3) (size - size / 10 - 3)
                (size / 10 + 3 + size / 8) (size / 30)
                (Some (40, 42, 54, 255)) None 1) as Hno.
  destruct (rounded_rectangle_mask env _ _ _ _ _) as [m | e]; [ | discriminate Hbar ].
  simpl in Hno. assert (true = false); [ apply Hno | discriminate ].
  left. Z.div_mod_to_equations. lia.
Qed.

(** C1, as the claim states it, fails: 5 is a positive size, and with a
    library that refuses a box whose corners are out of order (as Pillow
    does, with ValueError) [create_terminal_icon 5] raises at the title bar,
    whose box is [[3, 3, 2, 3]]; no image is returned. *)
Lemma C1_positive_size_without_icon :
  0 < 5
  /\ snd (create_terminal_icon (ref_env (strict linux)) 5 empty_world)
     = Raise (Exn "ValueError")
  /\ last (trace (fst (create_terminal_icon (ref_env (strict linux)) 5 empty_world)))
     = Some (EvRoundedRectangle 0%nat (Box (PInt 3) (PInt 3) (PInt 2) (PInt 3)) 0
               (Some (40, 42, 54, 255)) None 1).
Proof. repeat split; vm_compute; reflexivity. Qed.

(** C1, amended. Whenever [create_terminal_icon size] returns, the object it
    returns is an RGBA image whose width and height both equal [size].  It
    returns exactly when the library accepts the allocation of the canvas and
    every call outside a [try] that the function makes on it; and a library
    that refuses a rounded rectangle whose corners are out of order accepts
    no size below 6, so that the function raises for the positive sizes 1
    to 5. *)
Theorem C1_icon_has_requested_size (env : Pillow) (size : Z) (w : World) :
  (forall w' icon,
     create_terminal_icon env size w = (w', Ok icon) ->
     exists img,
       heap w' !! icon = Some img /\ im_mode img = "RGBA" /\
       im_width img = size /\ im_height img = size)
  /\ ((exists w' icon, create_terminal_icon env size w = (w', Ok icon))
      <-> accepts env size (fresh (dom (heap w))))
  /\ (refuses_inverted env -> size < 6 ->
      exists e, snd (create_terminal_icon env size w) = Raise e).
Proof.
  split; [ | split ].
  - intros w' icon Hrun.
    destruct (create_terminal_icon_ok _ _ _ _ _ Hrun)
      as (_ & _ & _ & _ & img & D & Hr & Hm & Hwd & Hht & _).
    exists img. auto.
  - split.
    + intros (w' & icon & Hrun).
      destruct (create_terminal_icon_exact _ _ _ _ _ Hrun) as (Hicon & _).
      rewrite <- Hicon. eapply create_terminal_icon_was_accepted. exact Hrun.
    + intros Hacc. destruct (create_terminal_icon_accepted _ _ _ Hacc) as (w' & Hrun).
      eauto.
  - apply title_bar_refused.
Qed.

(** The 16-pixel icon with the library that refuses boxes out of order. *)
Lemma C1_witness :
  exists w' icon img,
    create_terminal_icon (ref_env (strict linux)) 16 empty_world = (w', Ok icon) /\
    heap w' !! icon = Some img /\ im_mode img = "RGBA" /\
    im_width img = 16 /\ im_height img = 16.
Proof.
  destruct (C1_icon_has_requested_size (ref_env (strict linux)) 16 empty_world)
    as (Hpart & Hiff & _).
  destruct (proj2 Hiff) as (w' & icon & Hrun).
  { unfold accepts.
    match goal with
    | |- Forall _ ?l =>
        let l' := eval vm_compute in l in
        replace l with l' by (vm_compute; reflexivity)
    end.
    repeat (apply List.Forall_cons;
            [ intros Hg; simpl in Hg;
              first [ discriminate Hg | vm_compute; reflexivity ] | ]).
    apply List.Forall_nil. }
  destruct (Hpart _ _ Hrun) as (img & Himg).
  exists w', icon, img. split; [ exact Hrun | exact Himg ].
Defined.

(** ** C4: font selection *)

(** C4. Font selection never raises, for every size and whichever font
    files load: it returns Monaco if that loads, else DejaVu Sans Mono if
    that loads, else the built-in face; the attempts are made in that order
    and a failed load leaves no other mark on the world. *)
Theorem C4_font_selection_never_raises (env : Pillow) (size : Z) (w : World) :
  exists w',
    select_font env (font_size_of size) w
      = (w', Ok (chosen_font env (font_size_of size))) /\
    heap w' = heap w /\ files w' = files w /\ stdout w' = stdout w /\
    trace w' =
      (trace w ++
       EvTruetype monaco_path (font_size_of size) ::
       match truetype_error env monaco_path (font_size_of size) with
       | None => []
       | Some _ =>
           EvTruetype dejavu_path (font_size_of size) ::
           match truetype_error env dejavu_path (font_size_of size) with
           | None => []
           | Some _ => [EvLoadDefault]
           end
       end)%list.
Proof.
  unfold select_font, chosen_font, try_except, ImageFont_truetype,
    ImageFont_load_default, bind, log, raise, ret. simpl.
  destruct (truetype_error env monaco_path (font_size_of size)); simpl.
  - destruct (truetype_error env dejavu_path (font_size_of size)); simpl.
    + eexists. split; [ reflexivity | ]. simpl.
      rewrite <- !app_assoc. repeat split; reflexivity.
    + eexists. split; [ reflexivity | ]. simpl.
      rewrite <- !app_assoc. repeat split; reflexivity.
  - eexists. split; [ reflexivity | ]. simpl. repeat split; reflexivity.
Qed.

(** ** C9: the font size *)







(** ** C8: transparency outside the terminal rectangle *)

(** C8, as the claim states it, fails: on the 170-pixel icon the terminal
    rectangle ends at column 153, and the cursor is drawn at columns 161 to
    163 (the prompt and the command measure 119 pixels in DejaVu Sans Mono at
    12 pixels), inside the canvas: pixel (162, 50) is opaque green. *)
Lemma C8_cursor_outside_terminal_rectangle :
  snd (create_terminal_icon (ref_env linux) 170 empty_world) = Ok 0%nat
  /\ pixel_at (fst (create_terminal_icon (ref_env linux) 170 empty_world)) 0%nat 162 50
     = Some (80, 250, 123, 255)
  /\ 170 - 170 / 10 < 162 < 170
  /\ alpha (80, 250, 123, 255) = 255.
Proof. repeat split; vm_compute; reflexivity. Qed.

(** C8, amended. The canvas is created in RGBA mode with every pixel
    [(0, 0, 0, 0)], and the returned image is this canvas with the calls of
    the function painted on it in order.  A pixel that none of these calls
    covers (neither the rounded terminal rectangle, which leaves out the
    pixels beyond its rounded corners, nor the title bar, nor a later call)
    is still [(0, 0, 0, 0)]; and given that the library keeps a rounded
    rectangle within its box, so is every pixel outside the box
    [[margin, margin, size - margin, size - margin]] that none of the later
    calls (control dots, cursor, texts) covers. *)
Theorem C8_transparent_where_nothing_is_drawn
    (env : Pillow) (size : Z) (w w' : World) (icon : ref) :
  create_terminal_icon env size w = (w', Ok icon) ->
  exists img,
    heap w' !! icon = Some img /\ im_mode img = "RGBA" /\
    img = fold_left (fun canvas ev => paint env ev canvas) (icon_trace env size icon)
            {| im_mode := "RGBA"; im_width := size; im_height := size;
               im_data := fun _ _ => (0, 0, 0, 0) |} /\
    (forall x y,
       Forall (fun ev => covers env ev x y = false) (icon_trace env size icon) ->
       im_data img x y = (0, 0, 0, 0)) /\
    (rounded_in_box env ->
     forall x y,
       outside_terminal size x y ->
       Forall (fun ev => later_shape ev = true -> covers env ev x y = false)
         (icon_trace env size icon) ->
       im_data img x y = (0, 0, 0, 0)).
Proof.
  intros Hrun.
  destruct (create_terminal_icon_exact _ _ _ _ _ Hrun) as (_ & [Hsz _] & ->).
  destruct (painting_shape env size (icon_trace env size icon)) as (Hm & _ & _ & Hpx).
  exists (render env size icon). simpl. rewrite lookup_insert_eq.
  split; [ reflexivity | ]. split; [ exact Hm | ]. split; [ reflexivity | ].
  split; [ exact Hpx | ].
  intros Hlaw x y Hout Hlater. apply Hpx.
  apply Forall_forall. intros ev Hev.
  pose proof (proj1 (Forall_forall _ _) Hlater ev Hev) as Hshape.
  destruct ev; simpl in *; auto.
  assert (Hin : inside_terminal size xy).
  { unfold icon_trace in Hev. cbv zeta in Hev.
    apply list_elem_of_In in Hev. simpl in Hev.
    repeat (destruct Hev as [Hev | Hev]; [ try discriminate Hev | ]).
    - inversion Hev; subst. eexists _, _, _, _.
      split; [ reflexivity | Z.div_mod_to_equations; lia ].
    - inversion Hev; subst. eexists _, _, _, _.
      split; [ reflexivity | Z.div_mod_to_equations; lia ].
    - exfalso. apply in_app_or in Hev as [Hev | Hev].
      + unfold font_attempts in Hev.
        destruct (truetype_error env monaco_path _);
          [ destruct (truetype_error env dejavu_path _) | ];
          simpl in Hev; intuition discriminate.
      + simpl in Hev. intuition discriminate. }
  destruct Hin as (x0 & y0 & x1 & y1 & -> & Hbox).
  destruct (rounded_rectangle_mask env _ radius fill outline width) as [m | e] eqn:Hmask;
    [ | reflexivity ].
  destruct (m x y) as [c | ] eqn:Hc; [ | reflexivity ].
  destruct (Hlaw _ _ _ _ _ _ _ _ _ x y Hmask) as [Hx Hy]; [ rewrite Hc; eauto | ].
  unfold outside_terminal in Hout. lia.
Qed.

Lemma C8_witness :
  exists img,
    heap (fst (create_terminal_icon (ref_env linux) 16 empty_world)) !! 0%nat = Some img /\
    im_mode img = "RGBA" /\
    img = fold_left (fun canvas ev => paint (ref_env linux) ev canvas)
            (icon_trace (ref_env linux) 16 0%nat)
            {| im_mode := "RGBA"; im_width := 16; im_height := 16;
               im_data := fun _ _ => (0, 0, 0, 0) |} /\
    (forall x y,
       Forall (fun ev => covers (ref_env linux) ev x y = false)
         (icon_trace (ref_env linux) 16 0%nat) ->
       im_data img x y = (0, 0, 0, 0)) /\
    (rounded_in_box (ref_env linux) ->
     forall x y,
       outside_terminal 16 x y ->
       Forall (fun ev => later_shape ev = true -> covers (ref_env linux) ev x y = false)
         (icon_trace (ref_env linux) 16 0%nat) ->
       im_data img x y = (0, 0, 0, 0)).
Proof.
  assert (Hres : snd (create_terminal_icon (ref_env linux) 16 empty_world) = Ok 0%nat)
    by (vm_compute; reflexivity).
  destruct (create_terminal_icon (ref_env linux) 16 empty_world) as [w' res] eqn:Hrun.
  cbn [snd] in Hres. subst res. cbn [fst].
  exact (C8_transparent_where_nothing_is_drawn (ref_env linux) 16 empty_world w' 0%nat
           Hrun).
Defined.

(** ** C2: the files [main] writes *)

Lemma output_files_eq : flat_map save_names sizes = output_files.
Proof. vm_compute. reflexivity. Qed.

Lemma output_files_NoDup : NoDup (flat_map save_names sizes).
Proof. apply (bool_decide_unpack _). vm_compute. exact I. Qed.

(** The saves and the directory after a run of [main] that returned. *)
Lemma main_files env w w' :
  main env w = (w', Ok tt) ->
  saved_names (trace w') = (saved_names (trace w) ++ output_files)%list /\
  dom (files w') = dom (files w) ∪ list_to_set output_files /\
  (forall n, n ∉ output_files -> files w' !! n = files w !! n).
Proof.
  intros Hrun.
  destruct (main_ok _ _ _ _ Hrun) as (w6 & Hrounds & _ & Hfiles & _ & Htrace).
  destruct (rounds_trace _ _ _ _ Hrounds) as (tr & Htr & Hseq).
  apply sequential_saved in Hseq. rewrite output_files_eq in Hseq.
  repeat split.
  - rewrite Htrace, Htr, !saved_names_app, Hseq, !saved_names_prints.
    simpl. now rewrite !app_nil_r.
  - rewrite Hfiles, (rounds_dom _ _ _ _ Hrounds). now rewrite output_files_eq.
  - intros n Hn. rewrite Hfiles. apply (rounds_files_other _ _ _ _ _ Hrounds).
    now rewrite output_files_eq.
Qed.

(** C2. After [main] has returned, the save calls it made are exactly those
    of the fixed list (the six size variants and the four renamed copies), the
    directory holds these names besides what it held before, every other
    entry is as it was, and each name is a plain name of the working
    directory. *)
Theorem C2_files_written (env : Pillow) (w w' : World) :
  main env w = (w', Ok tt) ->
  saved_names (trace w') = (saved_names (trace w) ++ output_files)%list /\
  dom (files w') = dom (files w) ∪ list_to_set output_files /\
  (forall n, n ∉ output_files -> files w' !! n = files w !! n) /\
  Forall (fun n => String.index 0 "/" n = None) output_files.
Proof.
  intros Hrun.
  destruct (main_files _ _ _ Hrun) as (Hsaved & Hdom & Hother).
  repeat split; auto.
  unfold output_files. repeat constructor.
Qed.

Lemma C2_witness :
  exists w',
    main (ref_env linux) empty_world = (w', Ok tt) /\
    saved_names (trace w') = (saved_names (trace empty_world) ++ output_files)%list /\
    dom (files w') = dom (files empty_world) ∪ list_to_set output_files /\
    (forall n, n ∉ output_files -> files w' !! n = files empty_world !! n) /\
    Forall (fun n => String.index 0 "/" n = None) output_files.
Proof.
  destruct (main_returns (ref_env linux) empty_world
              (ref_draws_total linux eq_refl)
              (ref_saves_total linux (fun _ => eq_refl))
              (ref_system_total linux (fun _ => eq_refl))) as (w' & Hrun).
  exists w'. split; [ exact Hrun | ].
  exact (C2_files_written (ref_env linux) empty_world w' Hrun).
Defined.

(** ** C3: the report on standard output *)

(** What [main] prints when it returns: the banner, then one indented line
    for each name of the directory that ends in [.png]. *)
Lemma main_stdout env w w' :
  main env w = (w', Ok tt) ->
  stdout w' = (stdout w ++ banner
                 ++ report_lines (map fst (map_to_list (files w'))))%list.
Proof.
  intros Hrun.
  destruct (main_ok _ _ _ _ Hrun) as (w6 & Hrounds & _ & Hfiles & Hout & _).
  now rewrite Hout, Hfiles, (rounds_stdout _ _ _ _ Hrounds).
Qed.

Lemma main_reports env w w' f :
  main env w = (w', Ok tt) ->
  f ∈ dom (files w') -> is_png f = true ->
  ("  " +:+ f) ∈ stdout w'.
Proof.
  intros Hrun Hdom Hpng. rewrite (main_stdout _ _ _ Hrun).
  apply elem_of_app. right. apply elem_of_app. right.
  unfold report_lines. apply list_elem_of_In, in_map, filter_In.
  split; [ | exact Hpng ].
  apply elem_of_dom in Hdom as [data Hdata].
  apply (in_map fst _ (f, data)). apply list_elem_of_In.
  now apply elem_of_map_to_list.
Qed.

(** The names [main] wrote are all reported. *)
Lemma main_reports_outputs env w w' f :
  main env w = (w', Ok tt) -> f ∈ output_files -> ("  " +:+ f) ∈ stdout w'.
Proof.
  intros Hrun Hf. apply (main_reports _ _ _ _ Hrun).
  - destruct (main_files _ _ _ Hrun) as (_ & Hdom & _).
    rewrite Hdom. apply elem_of_union. right. now apply elem_of_list_to_set.
  - revert f Hf. apply Forall_forall. unfold output_files.
    repeat constructor.
Qed.

(** C3, where the code departs from it. Run in a directory that already
    holds [logo.png], [main] returns and prints the line for [logo.png] under
    "Files created:", although no save call of the run names that file. *)
Theorem C3_report_lists_files_not_created :
  exists w',
    main (ref_env linux) stray_world = (w', Ok tt) /\
    "  logo.png" ∈ stdout w' /\
    "logo.png" ∉ saved_names (trace w').
Proof.
  destruct (main_returns (ref_env linux) stray_world
              (ref_draws_total linux eq_refl)
              (ref_saves_total linux (fun _ => eq_refl))
              (ref_system_total linux (fun _ => eq_refl))) as (w' & Hrun).
  exists w'. split; [ exact Hrun | ].
  destruct (main_files _ _ _ Hrun) as (Hsaved & Hdom & _).
  split.
  - apply (main_reports _ _ _ "logo.png" Hrun); [ | reflexivity ].
    rewrite Hdom. apply elem_of_union. left. simpl.
    rewrite dom_singleton_L. now apply elem_of_singleton.
  - rewrite Hsaved. simpl. apply (bool_decide_unpack _). vm_compute. exact I.
Qed.

(** ** C6: one size after the other *)

(** C6. A run of [main] that returns goes through six finished rounds, for
    the sizes 16, 32, 64, 128, 256, 512 in this order, each starting from the
    world the round before left.  In a round the canvas of the size is
    allocated, every drawing call of [create_terminal_icon] is made on it and
    painted, and then the finished picture is written under each name of the
    size; so when the next round allocates its canvas, the icon of the size
    before is fully drawn and all its files hold its encoding.  The calls of
    the run are those of the six rounds in this order, followed by those of
    the report. *)
Theorem C6_sizes_one_after_the_other (env : Pillow) (w w' : World) :
  main env w = (w', Ok tt) ->
  exists w6 rest,
    finished_rounds env [16; 32; 64; 128; 256; 512] w w6 /\
    heap w' = heap w6 /\ files w' = files w6 /\
    trace w' = (trace w6 ++ rest)%list /\
    Forall is_report rest.
Proof.
  intros Hrun.
  destruct (main_finished _ _ _ _ Hrun) as (w6 & Hloop & Hheap & Hfiles & _ & Htrace & _).
  exists w6. eexists. repeat split; eauto.
  - exact (for_each_main_body_finished _ _ _ _ _ Hloop).
  - apply Forall_app. split; [ | constructor; [ exact I | ] ];
      apply Forall_forall; intros ev Hev;
      apply list_elem_of_In, in_map_iff in Hev as (l & <- & _); exact I.
Qed.

Lemma C6_witness :
  exists w' w6 rest,
    main (ref_env linux) empty_world = (w', Ok tt) /\
    finished_rounds (ref_env linux) [16; 32; 64; 128; 256; 512] empty_world w6 /\
    heap w' = heap w6 /\ files w' = files w6 /\
    trace w' = (trace w6 ++ rest)%list /\
    Forall is_report rest.
Proof.
  destruct (main_returns (ref_env linux) empty_world
              (ref_draws_total linux eq_refl)
              (ref_saves_total linux (fun _ => eq_refl))
              (ref_system_total linux (fun _ => eq_refl))) as (w' & Hrun).
  destruct (C6_sizes_one_after_the_other (ref_env linux) empty_world w' Hrun)
    as (w6 & rest & H).
  exists w', w6, rest. split; [ exact Hrun | exact H ].
Defined.

(** ** C7: every output is a PNG file of the right dimensions *)

Lemma output_sizes_eq :
  flat_map (fun size => map (fun n => (n, size)) (save_names size)) sizes
  = output_sizes.
Proof. vm_compute. reflexivity. Qed.

Lemma sequential_png env l tr : sequential env l tr -> Forall save_is_png tr.
Proof.
  induction 1 as [ | size l icon D tr HD _ IH ]; [ constructor | ].
  constructor; [ exact I | ].
  apply Forall_app. split.
  - eapply Forall_impl; [ exact HD | ]. intros ev. now destruct ev.
  - apply Forall_app. split; [ | exact IH ].
    apply Forall_forall. intros ev Hev.
    apply list_elem_of_In, in_map_iff in Hev as (n & <- & _). reflexivity.
Qed.

(** The file of one output name after a run of [main] that returned. *)
Lemma output_file env w w' n size :
  main env w = (w', Ok tt) -> size ∈ sizes -> n ∈ save_names size ->
  exists icon img data t1 t2,
    heap w' !! icon = Some img /\
    im_mode img = "RGBA" /\ im_width img = size /\ im_height img = size /\
    encode env "PNG" img = Ok data /\
    (forall k, k ∈ save_names size -> files w' !! k = Some data) /\
    trace w' = (t1 ++ map (fun k => EvSave icon k "PNG") (save_names size) ++ t2)%list.
Proof.
  intros Hrun Hsize Hn.
  destruct (main_ok _ _ _ _ Hrun) as (w6 & Hrounds & Hheap & Hfiles & _ & Htrace).
  destruct (rounds_size _ _ _ _ _ Hrounds output_files_NoDup Hsize)
    as (icon & img & data & t1 & t2 & Hlive & Hm & Hwd & Hht & Henc & Hf & Ht).
  exists icon, img, data, (trace w ++ t1)%list. eexists.
  rewrite Hheap, Hfiles. repeat split; eauto.
  rewrite Htrace, Ht. rewrite <- !app_assoc. reflexivity.
Qed.

(** C7. Given that the library's PNG decoder reads back what its PNG
    encoder writes, each file [main] has written holds the PNG encoding of an
    RGBA image whose edge is the size the file stands for, and decodes to an
    RGBA image of these dimensions; and every save of the run passes the
    format ['PNG'] explicitly. *)
Theorem C7_outputs_are_png (env : Pillow) (w w' : World) :
  png_roundtrip env ->
  main env w = (w', Ok tt) ->
  Forall (fun '(n, size) =>
            exists img data decoded,
              files w' !! n = Some data /\
              encode env "PNG" img = Ok data /\
              im_mode img = "RGBA" /\ im_width img = size /\ im_height img = size /\
              png_decode env data = Some decoded /\
              im_mode decoded = "RGBA" /\
              im_width decoded = size /\ im_height decoded = size)
         output_sizes
  /\ exists tr, trace w' = (trace w ++ tr)%list /\ Forall save_is_png tr.
Proof.
  intros Hlaw Hrun. split.
  - rewrite <- output_sizes_eq. apply Forall_forall. intros [n size] Hin.
    apply list_elem_of_In, in_flat_map in Hin as (size' & Hsize & Hin).
    apply in_map_iff in Hin as (n' & Heq & Hn). inversion Heq; subst; clear Heq.
    apply list_elem_of_In in Hsize, Hn.
    destruct (output_file _ _ _ _ _ Hrun Hsize Hn)
      as (icon & img & data & t1 & t2 & _ & Hm & Hwd & Hht & Henc & Hf & _).
    destruct (Hlaw img data Hm Henc) as (decoded & Hdec & Hdm & Hdw & Hdh).
    exists img, data, decoded. repeat split; auto; congruence.
  - destruct (main_ok _ _ _ _ Hrun) as (w6 & Hrounds & _ & _ & _ & Htrace).
    destruct (rounds_trace _ _ _ _ Hrounds) as (tr & Htr & Hseq).
    eexists. split; [ rewrite Htrace, Htr, <- app_assoc; reflexivity | ].
    apply Forall_app. split; [ eapply sequential_png; exact Hseq | ].
    apply Forall_app. split; [ | constructor; [ exact I | ] ];
      apply Forall_forall; intros ev Hev;
      apply list_elem_of_In, in_map_iff in Hev as (l & <- & _); exact I.
Qed.

Lemma C7_witness :
  exists w',
    main (ref_env linux) empty_world = (w', Ok tt) /\
    Forall (fun '(n, size) =>
              exists img data decoded,
                files w' !! n = Some data /\
                encode (ref_env linux) "PNG" img = Ok data /\
                im_mode img = "RGBA" /\ im_width img = size /\ im_height img = size /\
                png_decode (ref_env linux) data = Some decoded /\
                im_mode decoded = "RGBA" /\
                im_width decoded = size /\ im_height decoded = size)
           output_sizes
    /\ exists tr, trace w' = (trace empty_world ++ tr)%list /\ Forall save_is_png tr.
Proof.
  destruct (main_returns (ref_env linux) empty_world
              (ref_draws_total linux eq_refl)
              (ref_saves_total linux (fun _ => eq_refl))
              (ref_system_total linux (fun _ => eq_refl))) as (w' & Hrun).
  exists w'. split; [ exact Hrun | ].
  exact (C7_outputs_are_png (ref_env linux) empty_world w'
           (ref_png_roundtrip linux) Hrun).
Defined.

(** ** C10: the renamed copies *)

(** C10. For each of the sizes 32, 128 and 512, the size variant and its
    renamed copies are saved by consecutive calls on one and the same image
    object, each with the format ['PNG'], and after the run their files hold
    the same bytes: the encoding of that object, which is still what it was
    when saved. *)
Theorem C10_copies_share_rendering (env : Pillow) (w w' : World) :
  main env w = (w', Ok tt) ->
  Forall (fun '(size, names) =>
            exists icon img data t1 t2,
              heap w' !! icon = Some img /\
              im_width img = size /\ im_height img = size /\
              encode env "PNG" img = Ok data /\
              Forall (fun n => files w' !! n = Some data) names /\
              trace w' = (t1 ++ map (fun n => EvSave icon n "PNG") names ++ t2)%list)
         copies.
Proof.
  intros Hrun.
  assert (Hone : forall size, size ∈ sizes ->
            exists icon img data t1 t2,
              heap w' !! icon = Some img /\
              im_width img = size /\ im_height img = size /\
              encode env "PNG" img = Ok data /\
              Forall (fun n => files w' !! n = Some data) (save_names size) /\
              trace w' = (t1 ++ map (fun n => EvSave icon n "PNG") (save_names size)
                            ++ t2)%list).
  { intros size Hsize.
    destruct (output_file _ _ _ _ size Hrun Hsize (list_elem_of_here _ _))
      as (icon & img & data & t1 & t2 & Hlive & _ & Hwd & Hht & Henc & Hf & Ht).
    exists icon, img, data, t1, t2. repeat split; auto.
    apply Forall_forall. exact Hf. }
  unfold copies. repeat constructor.
  - apply (Hone 32). apply (bool_decide_unpack _). vm_compute. exact I.
  - apply (Hone 128). apply (bool_decide_unpack _). vm_compute. exact I.
  - apply (Hone 512). apply (bool_decide_unpack _). vm_compute. exact I.
Qed.

Lemma C10_witness :
  exists w',
    main (ref_env linux) empty_world = (w', Ok tt) /\
    Forall (fun '(size, names) =>
              exists icon img data t1 t2,
                heap w' !! icon = Some img /\
                im_width img = size /\ im_height img = size /\
                encode (ref_env linux) "PNG" img = Ok data /\
                Forall (fun n => files w' !! n = Some data) names /\
                trace w' = (t1 ++ map (fun n => EvSave icon n "PNG") names ++ t2)%list)
           copies.
Proof.
  destruct (main_returns (ref_env linux) empty_world
              (ref_draws_total linux eq_refl)
              (ref_saves_total linux (fun _ => eq_refl))
              (ref_system_total linux (fun _ => eq_refl))) as (w' & Hrun).
  exists w'. split; [ exact Hrun | ].
  exact (C10_copies_share_rendering (ref_env linux) empty_world w' Hrun).
Defined.

(** ** C5: which failures propagate *)

(** C5, as the claim states it, fails: a failure of [font.getlength] is not
    a font lookup, and it is caught.  With font objects that lack
    [getlength], the call raises AttributeError and [create_terminal_icon]
    returns all the same. *)
Lemma C5_getlength_failure_is_caught :
  snd (create_terminal_icon (ref_env (without_getlength linux)) 16 empty_world)
    = Ok 0%nat
  /\ trace (fst (create_terminal_icon (ref_env (without_getlength linux)) 16 empty_world))
       !! 10%nat
     = Some (EvGetlength (TrueType dejavu_path 12) "$ ")
  /\ call_error (ref_env (without_getlength linux))
       (EvGetlength (TrueType dejavu_path 12) "$ ")
     = Some (Exn "AttributeError").
Proof. repeat split; vm_compute; reflexivity. Qed.

(** C5, amended. A failure of a text measurement is caught: lines 62-65 and
    70-73 never raise, and yield what [font.getlength] returns or, when it
    raises, the float [len(text) * font_size * 0.6].  Every other failure
    outside the font loads propagates uncaught.  With the rounds before
    [size] done: if a save of the icon of [size] raises, [main] raises that
    exception from the world of that call, so that nothing is saved, drawn or
    printed after it and no other file is touched; and if a call of
    [create_terminal_icon size] outside its [try] blocks raises, it is the
    last call of the run and [main] raises its exception.  And in a run of
    [main] that returns, no call outside a [try] (allocation, drawing call,
    opening of a file, print, directory listing) has failed. *)
Theorem C5_failures_propagate (env : Pillow) :
  (forall font text font_size w,
     text_width env font text font_size w
     = ({| heap := heap w; files := files w; stdout := stdout w;
           trace := (trace w ++ [EvGetlength font text])%list |},
        Ok (match getlength env font text with
            | Ok l => PFloat l
            | Raise _ =>
                PFloat (PrimFloat.mul (float_of_Z (pylen text * font_size)) f0_6)
            end)))
  /\
  (forall w w1 pre post size,
     sizes = (pre ++ size :: post)%list ->
     for_each pre (main_body env) w = (w1, Ok tt) ->
     (forall w2 icon names_pre n names_post w3 w4 e,
        create_terminal_icon env size w1 = (w2, Ok icon) ->
        save_names size = (names_pre ++ n :: names_post)%list ->
        for_each names_pre (fun k => Image_save env icon k "PNG") w2 = (w3, Ok tt) ->
        Image_save env icon n "PNG" w3 = (w4, Raise e) ->
        main env w = (w4, Raise e) /\
        trace w4 = (trace w3 ++ [EvSave icon n "PNG"])%list /\
        (forall k, k <> n -> files w4 !! k = files w3 !! k) /\
        stdout w4 = stdout w3)
     /\
     (forall w2 res t1 ev t2 e,
        create_terminal_icon env size w1 = (w2, res) ->
        trace w2 = (trace w1 ++ t1 ++ ev :: t2)%list ->
        guarded ev = false -> call_error env ev = Some e ->
        t2 = [] /\ main env w = (w2, Raise e)))
  /\
  (forall w w',
     main env w = (w', Ok tt) ->
     exists t, trace w' = (trace w ++ t)%list /\ Forall (unraised env) t).
Proof.
  split; [ | split ].
  - intros font text font_size w.
    unfold text_width, try_except, font_getlength, bind, log, lift, ret. simpl.
    now destruct (getlength env font text).
  - intros w w1 pre post size Hsizes Hpre. split.
    + intros w2 icon names_pre n names_post w3 w4 e Hdraw Hnames Hsaved Hsave.
      split.
      * apply main_raise. rewrite Hsizes.
        eapply for_each_raise; [ exact Hpre | ].
        eapply main_body_raise_save; eassumption.
      * rewrite Image_save_run in Hsave.
        destruct (heap w3 !! icon) as [im | ];
          [ destruct (write_error env n);
            [ | destruct (encode env "PNG" im); [ discriminate Hsave | ] ] | ];
          inversion Hsave; subst; simpl; auto.
    + intros w2 res t1 ev t2 e Hdraw Ht Hg He.
      destruct (create_terminal_icon_propagates _ _ _ _ _ _ _ _ _ Hdraw Ht Hg He)
        as [-> ->].
      split; [ reflexivity | ].
      apply main_raise. rewrite Hsizes.
      eapply for_each_raise; [ exact Hpre | ].
      now apply main_body_raise_draw.
  - intros w w' Hrun. exact (main_unraised _ _ _ _ Hrun).
Qed.

(** On a machine where [icon_64x64.png] cannot be written, the rounds for
    16 and 32 return and the first save of the 64-pixel icon raises. *)
Lemma locked_run :
  exists w1 w2 w4 icon,
    for_each [16; 32] (main_body (ref_env locked)) empty_world = (w1, Ok tt) /\
    create_terminal_icon (ref_env locked) 64 w1 = (w2, Ok icon) /\
    Image_save (ref_env locked) icon "icon_64x64.png" "PNG" w2
    = (w4, Raise (Exn "PermissionError")).
Proof.
  pose proof (ref_draws_total locked eq_refl) as Hd.
  pose proof (ref_encoder_total locked) as He.
  destruct (main_body_returns (ref_env locked) 16 empty_world Hd He) as (wa & Ha);
    [ intros n Hn; apply list_elem_of_In in Hn; simpl in Hn;
      destruct Hn as [<- | []]; reflexivity
    | lia | reflexivity | ].
  destruct (main_body_returns (ref_env locked) 32 wa Hd He) as (w1 & H1);
    [ intros n Hn; apply list_elem_of_In in Hn; simpl in Hn;
      destruct Hn as [<- | [<- | []]]; reflexivity
    | lia | reflexivity | ].
  destruct (triple_returns _ _ _ w1
              (create_terminal_icon_returns (ref_env locked) 64 ltac:(lia) eq_refl Hd) I)
    as (w2 & icon & Hdraw & _).
  destruct (create_terminal_icon_ok _ _ _ _ _ Hdraw)
    as (_ & _ & _ & _ & img & D & Hlive & _).
  destruct (Image_save (ref_env locked) icon "icon_64x64.png" "PNG" w2)
    as [w4 res] eqn:Hsave.
  assert (Hres : res = Raise (Exn "PermissionError")).
  { rewrite Image_save_run, Hlive in Hsave. simpl in Hsave. now inversion Hsave. }
  subst res. exists w1, w2, w4, icon. repeat split; auto.
  simpl. unfold bind. now rewrite Ha, H1.
Qed.

Lemma C5_witness :
  exists w3 w4 icon,
    main (ref_env locked) empty_world = (w4, Raise (Exn "PermissionError")) /\
    trace w4 = (trace w3 ++ [EvSave icon "icon_64x64.png" "PNG"])%list /\
    (forall k, k <> "icon_64x64.png" -> files w4 !! k = files w3 !! k) /\
    stdout w4 = stdout w3.
Proof.
  destruct locked_run as (w1 & w2 & w4 & icon & Hpre & Hdraw & Hsave).
  destruct (C5_failures_propagate (ref_env locked)) as (_ & Hprop & _).
  destruct (Hprop empty_world w1 [16; 32] [128; 256; 512] 64 eq_refl Hpre)
    as [Hsaves _].
  exists w2, w4, icon.
  exact (Hsaves w2 icon [] "icon_64x64.png" [] w2 w4 (Exn "PermissionError")
           Hdraw eq_refl eq_refl Hsave).
Defined.

(** * Further properties of the script *)

(** ** Rules for two runs side by side *)

Section Related.

Variables r1 r2 : ref.

Lemma related_ret {A} (RA : A -> A -> Prop) a1 a2 :
  RA a1 a2 -> related r1 r2 RA (ret a1) (ret a2).
Proof. intros Ha w1 w2 Hw. simpl. auto. Qed.

Lemma related_raise {A} (RA : A -> A -> Prop) e :
  related r1 r2 RA (raise e) (raise e).
Proof. intros w1 w2 Hw. simpl. auto. Qed.

Lemma related_lift {A} (res : result A) :
  related r1 r2 eq (lift res) (lift res).
Proof. intros w1 w2 Hw. unfold lift. destruct res; auto. Qed.

Lemma related_log ev1 ev2 : related r1 r2 eq (log ev1) (log ev2).
Proof. intros w1 w2 Hw. simpl. auto. Qed.

Lemma related_bind {A B} (RA : A -> A -> Prop) (RB : B -> B -> Prop)
    (m1 m2 : Py A) (k1 k2 : A -> Py B) :
  related r1 r2 RA m1 m2 ->
  (forall a1 a2, RA a1 a2 -> related r1 r2 RB (k1 a1) (k2 a2)) ->
  related r1 r2 RB (bind m1 k1) (bind m2 k2).
Proof.
  intros Hm Hk w1 w2 Hw. unfold bind. specialize (Hm w1 w2 Hw).
  destruct (m1 w1) as [w1' [a1 | e1]], (m2 w2) as [w2' [a2 | e2]];
    try contradiction.
  - destruct Hm as [Hw' Ha]. exact (Hk a1 a2 Ha w1' w2' Hw').
  - exact Hm.
Qed.

Lemma related_try_except {A} (RA : A -> A -> Prop) (m1 m2 h1 h2 : Py A) :
  related r1 r2 RA m1 m2 ->
  related r1 r2 RA h1 h2 ->
  related r1 r2 RA (try_except m1 h1) (try_except m2 h2).
Proof.
  intros Hm Hh w1 w2 Hw. unfold try_except. specialize (Hm w1 w2 Hw).
  destruct (m1 w1) as [w1' [a1 | e1]], (m2 w2) as [w2' [a2 | e2]];
    try contradiction.
  - exact Hm.
  - destruct Hm as [Hw' _]. exact (Hh w1' w2' Hw').
Qed.

(** The same update of the two canvases. *)
Lemma related_update_image (f : Image -> Image) :
  related r1 r2 eq (update_image r1 f) (update_image r2 f).
Proof.
  intros w1 w2 Hw. unfold update_image, bind, deref.
  pose proof Hw as Hag. unfold agree in Hw.
  rewrite Hw. destruct (heap w2 !! r2) as [img | ]; simpl.
  - split; [ | reflexivity ]. unfold agree; simpl.
    now rewrite !lookup_insert_eq.
  - split; [ exact Hag | reflexivity ].
Qed.

(** The same drawing call on the two canvases. *)
Lemma related_draw_call {M} ev1 ev2 (res : result M) (upd : M -> Image -> Image) :
  related r1 r2 eq
    (log ev1 ;; m <- lift res ;; update_image r1 (upd m))
    (log ev2 ;; m <- lift res ;; update_image r2 (upd m)).
Proof.
  eapply related_bind; [ apply related_log | ]. intros _ _ _.
  eapply related_bind; [ apply related_lift | ]. intros m ? <-.
  apply related_update_image.
Qed.

Section Calls.

Variable env : Pillow.

Lemma related_truetype path px :
  related r1 r2 eq (ImageFont_truetype env path px) (ImageFont_truetype env path px).
Proof.
  unfold ImageFont_truetype.
  eapply related_bind; [ apply related_log | ]. intros _ _ _.
  destruct (truetype_error env path px);
    [ apply related_raise | now apply related_ret ].
Qed.

Lemma related_select_font px :
  related r1 r2 eq (select_font env px) (select_font env px).
Proof.
  unfold select_font, ImageFont_load_default.
  repeat (apply related_try_except; [ apply related_truetype | ]).
  eapply related_bind; [ apply related_log | ]. intros _ _ _.
  now apply related_ret.
Qed.

Lemma related_text_width font text px :
  related r1 r2 eq (text_width env font text px) (text_width env font text px).
Proof.
  unfold text_width, font_getlength. apply related_try_except.
  - eapply related_bind; [ apply related_log | ]. intros _ _ _.
    eapply related_bind; [ apply related_lift | ]. intros l ? <-.
    now apply related_ret.
  - now apply related_ret.
Qed.

End Calls.

End Related.

Ltac related_step :=
  eapply related_bind;
  [ first [ apply related_draw_call | apply related_select_font
          | apply related_text_width ]
  | cbv beta; intros ? ? <- ].

Lemma Image_new_run env mode size color w :
  Image_new env mode (size, size) color w =
  let r := fresh (dom (heap w)) in
  let w1 := {| heap := heap w; files := files w; stdout := stdout w;
               trace := (trace w ++ [EvImageNew r mode size size color])%list |} in
  if size <? 0 then (w1, Raise (Exn "ValueError"))
  else
    match new_error env size size with
    | Some e => (w1, Raise e)
    | None =>
        (set_heap (<[r := {| im_mode := mode; im_width := size; im_height := size;
                             im_data := fun _ _ => color |}]> (heap w)) w1, Ok r)
    end.
Proof.
  unfold Image_new, bind, log, raise. simpl.
  rewrite orb_diag. destruct (size <? 0); [ reflexivity | ].
  now destruct (new_error env size size).
Qed.

(** Two runs of [create_terminal_icon] for one size, from any two worlds:
    both return, with the same picture on their canvases, or both raise the
    same exception. *)
Lemma create_terminal_icon_related env size w1 w2 :
  match create_terminal_icon env size w1, create_terminal_icon env size w2 with
  | (w1', Ok i1), (w2', Ok i2) =>
      heap w1' !! i1 = heap w2' !! i2
  | (_, Raise e1), (_, Raise e2) => e1 = e2
  | _, _ => False
  end.
Proof.
  unfold create_terminal_icon. cbv zeta.
  match goal with
  | |- context [bind (Image_new env "RGBA" (size, size) (0, 0, 0, 0)) ?K] =>
      set (rest := K)
  end.
  assert (Hrest : forall r1 r2,
            related r1 r2 (fun a1 a2 => a1 = r1 /\ a2 = r2) (rest r1) (rest r2)).
  { intros r1 r2. subst rest. cbv beta.
    eapply related_bind with (RA := handles r1 r2).
    { unfold ImageDraw_Draw.
      eapply related_bind; [ apply related_log | ]. intros _ _ _.
      apply related_ret. split; reflexivity. }
    intros [d1] [d2] [Hd1 Hd2]. simpl in Hd1, Hd2. subst d1 d2.
    unfold draw_rounded_rectangle, draw_ellipse, draw_rectangle, draw_text.
    cbn [draw_im].
    do 12 related_step.
    eapply related_bind with (RA := eq).
    { apply related_try_except; [ apply related_truetype | now apply related_ret ]. }
    intros logo_font ? <-.
    related_step.
    apply related_ret. split; reflexivity. }
  unfold bind. rewrite !Image_new_run. cbv zeta.
  destruct (size <? 0); [ reflexivity | ].
  destruct (new_error env size size); [ reflexivity | ].
  set (i1 := fresh (dom (heap w1))). set (i2 := fresh (dom (heap w2))).
  match goal with |- context [rest i1 ?wa] => set (wA := wa) end.
  match goal with |- context [rest i2 ?wb] => set (wB := wb) end.
  assert (Hag : agree i1 i2 wA wB).
  { unfold agree, wA, wB. simpl. now rewrite !lookup_insert_eq. }
  pose proof (Hrest i1 i2 wA wB Hag) as H.
  destruct (rest i1 wA) as [w1' [a1 | e1]], (rest i2 wB) as [w2' [a2 | e2]];
    try contradiction.
  - destruct H as (H & -> & ->). exact H.
  - now destruct H.
Qed.

(** ** Properties kept by every call of [create_terminal_icon] *)

Section Keeps.

Variables (env : Pillow) (icon : ref) (I : World -> Prop).
Hypothesis HI : stable icon I.

Lemma log_keeps ev E :
  triple I (log ev) (fun _ w => I w /\ True) E.
Proof. intros w Hw. simpl. split; [ now apply (proj1 HI) | exact Logic.I ]. Qed.

Lemma draw_call_keeps {M} ev (res : result M) (upd : M -> Image -> Image) :
  triple I (log ev ;; m <- lift res ;; update_image icon (upd m))
    (fun _ w => I w /\ True) (fun _ w => I w).
Proof.
  intros w Hw. unfold bind, log, lift, update_image, deref, bind; simpl.
  pose proof (proj1 HI w ev Hw) as Hlog.
  destruct res as [m | e]; simpl; [ | exact Hlog ].
  destruct (heap w !! icon) as [img | ]; simpl; [ | exact Hlog ].
  split; [ | exact Logic.I ]. exact (proj2 HI _ (upd m img) Hlog).
Qed.

Lemma truetype_keeps path px :
  triple I (ImageFont_truetype env path px)
    (fun _ w => I w /\ True) (fun _ w => I w).
Proof.
  unfold ImageFont_truetype. eapply triple_seq; [ apply log_keeps | ].
  intros _ _. destruct (truetype_error env path px).
  - apply triple_raise. auto.
  - apply triple_ret. auto.
Qed.

Lemma select_font_keeps px E :
  triple I (select_font env px) (fun _ w => I w /\ True) E.
Proof.
  unfold select_font. eapply triple_try_except; [ apply truetype_keeps | ].
  intros e1. eapply triple_try_except; [ apply truetype_keeps | ].
  intros e2. unfold ImageFont_load_default.
  eapply triple_seq; [ apply log_keeps | ].
  intros _ _. apply triple_ret. auto.
Qed.

Lemma text_width_keeps font text px E :
  triple I (text_width env font text px) (fun _ w => I w /\ True) E.
Proof.
  unfold text_width, font_getlength. eapply triple_try_except.
  - eapply triple_seq with (E := fun _ w => I w); [ apply log_keeps | ].
    intros _ _. eapply triple_seq with (phi := fun _ => True).
    + intros w Hw. unfold lift. destruct (getlength env font text); auto.
    + intros l _. apply triple_ret. auto.
  - intros e. apply triple_ret. auto.
Qed.

End Keeps.

Ltac keeps_step HI :=
  eapply triple_seq;
  [ first [ apply (select_font_keeps _ _ _ HI) | apply (text_width_keeps _ _ _ HI)
          | apply (draw_call_keeps _ _ HI) ]
  | cbv beta; intros ? _ ].

(** Whatever its outcome, [create_terminal_icon] keeps every property that
    survives logging and the replacement of the canvas it allocates. *)
Lemma create_terminal_icon_keeps env size w (I : World -> Prop) :
  stable (fresh (dom (heap w))) I -> I w ->
  I (fst (create_terminal_icon env size w)).
Proof.
  intros HI Hw.
  set (icon := fresh (dom (heap w))) in *.
  assert (Hrest : triple (fun w' => w' = w) (create_terminal_icon env size)
                    (fun _ w' => I w') (fun _ w' => I w')).
  { unfold create_terminal_icon. cbv zeta.
    eapply triple_bind with (Q1 := fun r w' => I w' /\ r = icon).
    { intros w' ->. rewrite Image_new_run. cbv zeta. fold icon.
      destruct (size <? 0); simpl.
      - now apply (proj1 HI).
      - destruct (new_error env size size); simpl.
        + now apply (proj1 HI).
        + split; [ | reflexivity ]. apply (proj2 HI _ _ (proj1 HI w _ Hw)). }
    intros img. apply triple_pure_pre. intros ->.
    eapply triple_seq with (phi := fun d => draw_im d = icon).
    { unfold ImageDraw_Draw. eapply triple_seq; [ apply (log_keeps _ _ HI) | ].
      intros _ _. apply triple_ret. auto. }
    intros [d] Hd. simpl in Hd. subst d.
    unfold draw_rounded_rectangle, draw_ellipse, draw_rectangle, draw_text.
    cbn [draw_im].
    do 12 keeps_step HI.
    eapply triple_seq with (phi := fun _ => True).
    { eapply triple_try_except; [ apply (truetype_keeps _ _ _ HI) | ].
      intros e. apply triple_ret. auto. }
    intros logo_font _.
    keeps_step HI.
    apply triple_ret. auto. }
  specialize (Hrest w eq_refl).
  destruct (create_terminal_icon env size w) as [w' [r | e]]; exact Hrest.
Qed.

(** X1. Whether it returns or raises, [create_terminal_icon] leaves the
    directory, the output and every existing image object as they were; when
    it returns, the object it returns is a new one. *)
Theorem icon_touches_only_its_canvas
    (env : Pillow) (size : Z) (w w' : World) (res : result ref) :
  create_terminal_icon env size w = (w', res) ->
  files w' = files w /\ stdout w' = stdout w /\
  (forall r, r ∈ dom (heap w) -> heap w' !! r = heap w !! r) /\
  (forall icon, res = Ok icon ->
     (icon ∉ dom (heap w)) /\ is_Some (heap w' !! icon)).
Proof.
  intros Hrun.
  pose proof (create_terminal_icon_keeps env size w
                (fun w' => files w' = files w /\ stdout w' = stdout w /\
                   (forall r, r <> fresh (dom (heap w)) -> heap w' !! r = heap w !! r)))
    as Hkeep.
  rewrite Hrun in Hkeep. simpl in Hkeep.
  destruct Hkeep as (Hf & Hs & Hh).
  - split.
    + intros w0 ev H. exact H.
    + intros w0 img (Hf & Hs & Hh). simpl. repeat split; auto.
      intros r Hr. rewrite lookup_insert_ne; [ auto | ].
      intros Heq. apply Hr. now symmetry.
  - auto.
  - repeat split; auto.
    + intros r Hr. apply Hh. intros ->. exact (is_fresh _ Hr).
    + subst res.
      destruct (create_terminal_icon_ok _ _ _ _ _ Hrun) as (_ & _ & Hfresh & _).
      now apply not_elem_of_dom.
    + subst res.
      destruct (create_terminal_icon_ok _ _ _ _ _ Hrun)
        as (_ & _ & _ & _ & img & D & Hlive & _).
      rewrite Hlive. eauto.
Qed.

Lemma icon_touches_only_its_canvas_witness :
  files (fst (create_terminal_icon (ref_env linux) 16 stray_world)) = files stray_world /\
  stdout (fst (create_terminal_icon (ref_env linux) 16 stray_world)) = stdout stray_world /\
  (forall r, r ∈ dom (heap stray_world) ->
     heap (fst (create_terminal_icon (ref_env linux) 16 stray_world)) !! r
     = heap stray_world !! r) /\
  (forall icon, Ok 0%nat = Ok icon ->
     (icon ∉ dom (heap stray_world)) /\
     is_Some (heap (fst (create_terminal_icon (ref_env linux) 16 stray_world)) !! icon)).
Proof.
  assert (Hres : snd (create_terminal_icon (ref_env linux) 16 stray_world) = Ok 0%nat)
    by (vm_compute; reflexivity).
  destruct (create_terminal_icon (ref_env linux) 16 stray_world) as [w' res] eqn:Hrun.
  simpl in Hres. subst res. simpl.
  exact (icon_touches_only_its_canvas (ref_env linux) 16 stray_world w' _ Hrun).
Defined.

(** X2. The picture does not depend on the world: if [create_terminal_icon]
    returns for a size from one world, it returns for that size from any
    other world, and the two canvases hold the same image. *)
Theorem icon_picture_independent_of_world
    (env : Pillow) (size : Z) (w1 w2 w1' : World) (i1 : ref) :
  create_terminal_icon env size w1 = (w1', Ok i1) ->
  exists w2' i2 img,
    create_terminal_icon env size w2 = (w2', Ok i2) /\
    heap w1' !! i1 = Some img /\ heap w2' !! i2 = Some img.
Proof.
  intros Hrun1.
  pose proof (create_terminal_icon_related env size w1 w2) as Hrel.
  rewrite Hrun1 in Hrel.
  destruct (create_terminal_icon env size w2) as [w2' [i2 | e2]] eqn:Hrun2;
    [ | contradiction ].
  destruct (create_terminal_icon_ok _ _ _ _ _ Hrun1)
    as (_ & _ & _ & _ & img & D & Hlive & _).
  exists w2', i2, img. repeat split; congruence.
Qed.

(** A world that already holds an image object: the one left by drawing the
    32-pixel icon. *)
Lemma icon_picture_independent_of_world_witness :
  exists w2' i2 img,
    create_terminal_icon (ref_env linux) 16
      (fst (create_terminal_icon (ref_env linux) 32 empty_world)) = (w2', Ok i2) /\
    heap (fst (create_terminal_icon (ref_env linux) 16 empty_world)) !! 0%nat = Some img /\
    heap w2' !! i2 = Some img.
Proof.
  assert (Hres : snd (create_terminal_icon (ref_env linux) 16 empty_world) = Ok 0%nat)
    by (vm_compute; reflexivity).
  destruct (create_terminal_icon (ref_env linux) 16 empty_world) as [w' res] eqn:Hrun.
  simpl in Hres. subst res. simpl.
  exact (icon_picture_independent_of_world (ref_env linux) 16 empty_world _ w' 0%nat Hrun).
Defined.

(** ** Sequences of file writes *)

Lemma apply_writes_app ws1 ws2 m :
  apply_writes (ws1 ++ ws2) m = apply_writes ws2 (apply_writes ws1 m).
Proof. unfold apply_writes. apply foldl_app. Qed.

Lemma apply_writes_names (data : list byte) names : forall m,
  foldl (fun f n => <[n := data]> f) m names
  = apply_writes (map (fun n => (n, data)) names) m.
Proof.
  induction names as [ | n names IH ]; intros m; [ reflexivity | ].
  simpl. now rewrite IH.
Qed.

Lemma lookup_apply_writes_other ws : forall m n,
  ~ In n (map fst ws) -> apply_writes ws m !! n = m !! n.
Proof.
  induction ws as [ | [k d] ws IH ]; intros m n Hn; [ reflexivity | ].
  simpl in *. rewrite IH by tauto.
  apply lookup_insert_ne. intros ->. tauto.
Qed.

(** What is read under a written name does not depend on what the directory
    held before. *)
Lemma lookup_apply_writes_same ws : forall m1 m2 n,
  In n (map fst ws) -> apply_writes ws m1 !! n = apply_writes ws m2 !! n.
Proof.
  induction ws as [ | [k d] ws IH ]; intros m1 m2 n Hn; [ contradiction | ].
  simpl in *.
  destruct (in_dec string_dec n (map fst ws)) as [Hin | Hnin].
  - now apply IH.
  - destruct Hn as [-> | Hn]; [ | contradiction ].
    rewrite !lookup_apply_writes_other by assumption.
    now rewrite !lookup_insert_eq.
Qed.

Lemma apply_writes_is_Some ws : forall m n,
  In n (map fst ws) -> is_Some (apply_writes ws m !! n).
Proof.
  induction ws as [ | [k d] ws IH ]; intros m n Hn; [ contradiction | ].
  simpl in *.
  destruct (in_dec string_dec n (map fst ws)) as [Hin | Hnin].
  - now apply IH.
  - destruct Hn as [-> | Hn]; [ | contradiction ].
    rewrite lookup_apply_writes_other by assumption.
    rewrite lookup_insert_eq. eauto.
Qed.


(** ** Two runs of the driver *)

Section TwoRuns.

Variable env : Pillow.

(** Two rounds for one size, from any two worlds, write the same bytes under
    the same names. *)
Lemma main_body_same_writes size w1 w2 w1' w2' :
  main_body env size w1 = (w1', Ok tt) ->
  main_body env size w2 = (w2', Ok tt) ->
  exists data,
    files w1' = apply_writes (map (fun n => (n, data)) (save_names size)) (files w1) /\
    files w2' = apply_writes (map (fun n => (n, data)) (save_names size)) (files w2).
Proof.
  rewrite !main_body_eq. unfold bind.
  destruct (create_terminal_icon env size w1) as [wa [i1 | e1]] eqn:Hrun1;
    [ | discriminate ].
  destruct (create_terminal_icon env size w2) as [wb [i2 | e2]] eqn:Hrun2;
    [ | discriminate ].
  intros Hsave1 Hsave2.
  pose proof (create_terminal_icon_related env size w1 w2) as Hrel.
  rewrite Hrun1, Hrun2 in Hrel.
  destruct (create_terminal_icon_ok _ _ _ _ _ Hrun1)
    as (Hf1 & _ & _ & _ & img & D1 & Hlive1 & _).
  destruct (create_terminal_icon_ok _ _ _ _ _ Hrun2) as (Hf2 & _).
  assert (Hlive2 : heap wb !! i2 = Some img) by congruence.
  destruct (save_all_ok env i1 img _ _ _ _ Hlive1 Hsave1) as (_ & Hfiles1 & _).
  destruct (save_all_ok env i2 img _ _ _ _ Hlive2 Hsave2) as (_ & Hfiles2 & _).
  destruct Hfiles1 as [Hnil | (data1 & Henc1 & Hfiles1)]; [ discriminate Hnil | ].
  destruct Hfiles2 as [Hnil | (data2 & Henc2 & Hfiles2)]; [ discriminate Hnil | ].
  assert (data2 = data1) as -> by congruence.
  exists data1. rewrite <- !apply_writes_names. split; congruence.
Qed.

Lemma loop_same_writes l : forall w1 w2 w1' w2',
  for_each l (main_body env) w1 = (w1', Ok tt) ->
  for_each l (main_body env) w2 = (w2', Ok tt) ->
  exists ws,
    map fst ws = flat_map save_names l /\
    files w1' = apply_writes ws (files w1) /\
    files w2' = apply_writes ws (files w2).
Proof.
  induction l as [ | size l IH ]; intros w1 w2 w1' w2' H1 H2; simpl in H1, H2.
  - inversion H1; inversion H2; subst. exists []. auto.
  - unfold bind in H1, H2.
    destruct (main_body env size w1) as [wa [[] | e1]] eqn:Ha; [ | discriminate ].
    destruct (main_body env size w2) as [wb [[] | e2]] eqn:Hb; [ | discriminate ].
    destruct (main_body_same_writes _ _ _ _ _ Ha Hb) as (data & Hfa & Hfb).
    destruct (IH _ _ _ _ H1 H2) as (ws & Hnames & Hf1 & Hf2).
    exists (map (fun n => (n, data)) (save_names size) ++ ws)%list.
    rewrite !apply_writes_app, <- Hfa, <- Hfb.
    repeat split; auto.
    rewrite map_app, map_map, Hnames. simpl. now rewrite map_id.
Qed.

Lemma main_same_writes w1 w2 w1' w2' :
  main env w1 = (w1', Ok tt) ->
  main env w2 = (w2', Ok tt) ->
  exists ws,
    map fst ws = output_files /\
    files w1' = apply_writes ws (files w1) /\
    files w2' = apply_writes ws (files w2).
Proof.
  intros H1 H2.
  destruct (main_finished _ _ _ _ H1) as (wa & Ha & _ & Hfa & _).
  destruct (main_finished _ _ _ _ H2) as (wb & Hb & _ & Hfb & _).
  destruct (loop_same_writes _ _ _ _ _ Ha Hb) as (ws & Hnames & Hf1 & Hf2).
  exists ws. rewrite <- output_files_eq, Hfa, Hfb. auto.
Qed.

End TwoRuns.

Section Anywhere.

Variable env : Pillow.





End Anywhere.

(** ** What [main] writes does not depend on where it runs *)

(** X3. Any two runs of [main] that return, with the same library and
    from whatever worlds, leave under each of the ten output names a file
    with the same bytes: what is written does not depend on what the heap or
    the directory held before. *)
Theorem main_outputs_independent_of_world
    (env : Pillow) (w1 w1' w2 w2' : World) :
  main env w1 = (w1', Ok tt) ->
  main env w2 = (w2', Ok tt) ->
  forall n, n ∈ output_files ->
    is_Some (files w1' !! n) /\ files w2' !! n = files w1' !! n.
Proof.
  intros H1 H2.
  destruct (main_same_writes env _ _ _ _ H1 H2) as (ws & Hnames & Hf1 & Hf2).
  intros n Hn. apply list_elem_of_In in Hn. rewrite <- Hnames in Hn.
  rewrite Hf1, Hf2. split.
  - now apply apply_writes_is_Some.
  - now apply lookup_apply_writes_same.
Qed.

Lemma main_outputs_independent_of_world_witness :
  exists w1' w2',
    main (ref_env linux) empty_world = (w1', Ok tt) /\
    main (ref_env linux) stray_world = (w2', Ok tt) /\
    forall n, n ∈ output_files ->
      is_Some (files w1' !! n) /\ files w2' !! n = files w1' !! n.
Proof.
  destruct (main_returns (ref_env linux) empty_world
              (ref_draws_total linux eq_refl)
              (ref_saves_total linux (fun _ => eq_refl))
              (ref_system_total linux (fun _ => eq_refl))) as (w1' & H1).
  destruct (main_returns (ref_env linux) stray_world
              (ref_draws_total linux eq_refl)
              (ref_saves_total linux (fun _ => eq_refl))
              (ref_system_total linux (fun _ => eq_refl))) as (w2' & H2).
  exists w1', w2'. split; [ exact H1 | ]. split; [ exact H2 | ].
  exact (main_outputs_independent_of_world (ref_env linux) empty_world w1'
           stray_world w2' H1 H2).
Defined.



(** ** The report, line by line *)

Lemma substring_all (s : string) : String.substring 0 (String.length s) s = s.
Proof. induction s as [ | c s IH ]; simpl; [ reflexivity | now rewrite IH ]. Qed.

Lemma substring_skip (p q : string) (k : nat) :
  String.substring (String.length p) k (p +:+ q) = String.substring 0 k q.
Proof. induction p as [ | c p IH ]; simpl; [ reflexivity | exact IH ]. Qed.

Lemma string_length_app (p q : string) :
  String.length (p +:+ q) = (String.length p + String.length q)%nat.
Proof. induction p as [ | c p IH ]; simpl; [ reflexivity | now rewrite IH ]. Qed.

Lemma substring_split (s : string) : forall m : nat,
  (m <= String.length s)%nat ->
  s = String.substring 0 m s +:+ String.substring m (String.length s - m) s.
Proof.
  induction s as [ | c s IH ]; intros m Hm; simpl in *.
  - destruct m; [ reflexivity | lia ].
  - destruct m as [ | m ]; simpl.
    + now rewrite substring_all.
    + etransitivity; [ apply (f_equal (String c)), (IH m); lia | reflexivity ].
Qed.

(** [s.endswith(suffix)] holds exactly when [s] is some string followed by
    [suffix]. *)
Lemma endswith_spec (s suffix : string) :
  endswith s suffix = true <-> exists p, s = p +:+ suffix.
Proof.
  unfold endswith. split.
  - destruct (Nat.leb_spec (String.length suffix) (String.length s)) as [Hle | Hlt];
      [ | discriminate ].
    intros Heq. apply String.eqb_eq in Heq.
    exists (String.substring 0 (String.length s - String.length suffix) s).
    pose proof (substring_split s (String.length s - String.length suffix))
      as Hsplit.
    replace (String.length s - (String.length s - String.length suffix))%nat
      with (String.length suffix) in Hsplit by lia.
    rewrite Heq in Hsplit. apply Hsplit. lia.
  - intros (p & ->). rewrite string_length_app.
    destruct (Nat.leb_spec (String.length suffix)
                (String.length p + String.length suffix)) as [Hle | Hlt]; [ | lia ].
    replace (String.length p + String.length suffix - String.length suffix)%nat
      with (String.length p) by lia.
    rewrite substring_skip, substring_all. apply String.eqb_refl.
Qed.

Lemma report_lines_NoDup names : NoDup names -> NoDup (report_lines names).
Proof.
  intros Hnd. unfold report_lines.
  apply NoDup_fmap_2.
  - intros a b Hab. now inversion Hab.
  - induction Hnd as [ | n names Hn Hnd IH ]; simpl; [ constructor | ].
    destruct (is_png n); [ | exact IH ].
    constructor; [ | exact IH ].
    intros Hin. apply Hn. apply list_elem_of_In in Hin.
    apply filter_In in Hin as [Hin _]. now apply list_elem_of_In.
Qed.

(** X5. The lines [main] prints after its two-line banner are exactly the
    names of the working directory, as it is when [main] ends, that end in
    [.png], each once and indented by two spaces; nothing else is printed. *)
Theorem main_report_is_the_png_listing (env : Pillow) (w w' : World) :
  main env w = (w', Ok tt) ->
  exists lines,
    stdout w' = (stdout w ++ banner ++ lines)%list /\
    NoDup lines /\
    forall line,
      line ∈ lines <->
      exists stem, line = "  " +:+ stem +:+ ".png" /\
                   (stem +:+ ".png") ∈ dom (files w').
Proof.
  intros Hrun.
  exists (report_lines (map fst (map_to_list (files w')))).
  split; [ exact (main_stdout _ _ _ Hrun) | ].
  split; [ apply report_lines_NoDup, NoDup_fst_map_to_list | ].
  intros line. unfold report_lines. rewrite list_elem_of_In, in_map_iff.
  split.
  - intros (f & <- & Hf). apply filter_In in Hf as [Hf Hpng].
    apply endswith_spec in Hpng as (stem & ->).
    exists stem. split; [ reflexivity | ].
    apply in_map_iff in Hf as ([n data] & Hn & Hin). simpl in Hn. subst n.
    apply list_elem_of_In, elem_of_map_to_list in Hin.
    apply elem_of_dom. eauto.
  - intros (stem & -> & Hdom). exists (stem +:+ ".png").
    split; [ reflexivity | ]. apply filter_In. split.
    + apply elem_of_dom in Hdom as [data Hdata].
      apply (in_map fst _ (stem +:+ ".png", data)).
      now apply list_elem_of_In, elem_of_map_to_list.
    + apply endswith_spec. eauto.
Qed.

Lemma main_report_is_the_png_listing_witness :
  exists w' lines,
    main (ref_env linux) stray_world = (w', Ok tt) /\
    stdout w' = (stdout stray_world ++ banner ++ lines)%list /\
    NoDup lines /\
    forall line,
      line ∈ lines <->
      exists stem, line = "  " +:+ stem +:+ ".png" /\
                   (stem +:+ ".png") ∈ dom (files w').
Proof.
  destruct (main_returns (ref_env linux) stray_world
              (ref_draws_total linux eq_refl)
              (ref_saves_total linux (fun _ => eq_refl))
              (ref_system_total linux (fun _ => eq_refl))) as (w' & Hrun).
  destruct (main_report_is_the_png_listing (ref_env linux) stray_world w' Hrun)
    as (lines & Hrest).
  exists w', lines. split; [ exact Hrun | exact Hrest ].
Defined.

(** ** Runs of [main] that raise *)

Lemma for_each_raise_inv {A} (body : A -> Py unit) l : forall w w' e,
  for_each l body w = (w', Raise e) ->
  exists pre x post w1,
    l = (pre ++ x :: post)%list /\
    for_each pre body w = (w1, Ok tt) /\ body x w1 = (w', Raise e).
Proof.
  induction l as [ | y l IH ]; intros w w' e Hrun; simpl in Hrun.
  - discriminate Hrun.
  - unfold bind in Hrun. destruct (body y w) as [wa [[] | ea]] eqn:Hy.
    + destruct (IH _ _ _ Hrun) as (pre & x & post & w1 & -> & Hpre & Hx).
      exists (y :: pre), x, post, w1. repeat split; auto.
      simpl. unfold bind. now rewrite Hy.
    + inversion Hrun; subst. exists [], y, l, w. auto.
Qed.

Lemma dom_apply_writes ws : forall m,
  dom (apply_writes ws m) = dom m ∪ list_to_set (map fst ws).
Proof.
  induction ws as [ | [k d] ws IH ]; intros m; simpl.
  - now rewrite (right_id_L ∅ (∪)).
  - rewrite IH, dom_insert_L. apply set_eq. intros x.
    rewrite !elem_of_union. tauto.
Qed.

(** [create_terminal_icon] writes no file and prints nothing, whether it
    returns or raises. *)
Lemma create_terminal_icon_quiet env size w :
  files (fst (create_terminal_icon env size w)) = files w /\
  stdout (fst (create_terminal_icon env size w)) = stdout w.
Proof.
  apply (create_terminal_icon_keeps env size w
           (fun w' => files w' = files w /\ stdout w' = stdout w));
    [ | auto ].
  split; intros w0 ? H; exact H.
Qed.

Section Failing.

Variable env : Pillow.

(** The files a loop of rounds that returned has written. *)
Lemma loop_writes l : forall w w',
  for_each l (main_body env) w = (w', Ok tt) ->
  stdout w' = stdout w /\
  exists ws, map fst ws = flat_map save_names l /\
             files w' = apply_writes ws (files w).
Proof.
  intros w w' Hrun.
  destruct (loop_same_writes env l _ _ _ _ Hrun Hrun) as (ws & Hn & Hf & _).
  split; [ | eauto ].
  apply (rounds_stdout env l). eapply for_each_main_body_ok. eassumption.
Qed.

(** The saves of one icon up to the first that raises. *)
Lemma save_all_raise icon names w w' e :
  for_each names (fun n => Image_save env icon n "PNG") w = (w', Raise e) ->
  stdout w' = stdout w /\
  exists ws post, (map fst ws ++ post)%list = names /\ post <> [] /\
                  files w' = apply_writes ws (files w).
Proof.
  intros Hrun.
  destruct (for_each_raise_inv _ _ _ _ _ Hrun)
    as (pre & n & post & w1 & -> & Hpre & Hn).
  assert (Hlast : files w' = files w1 /\ stdout w' = stdout w1).
  { rewrite Image_save_run in Hn.
    destruct (heap w1 !! icon) as [im | ];
      [ destruct (write_error env n);
        [ | destruct (encode env "PNG" im); [ discriminate Hn | ] ] | ];
      inversion Hn; subst; simpl; auto. }
  destruct Hlast as [Hf Hs]. rewrite Hf, Hs. clear Hn Hf Hs Hrun.
  revert w Hpre. induction pre as [ | k pre IH ]; intros w Hpre; simpl in Hpre.
  - inversion Hpre; subst. split; [ reflexivity | ].
    exists [], (n :: post). simpl. repeat split; auto; discriminate.
  - unfold bind in Hpre. rewrite Image_save_run in Hpre.
    destruct (heap w !! icon) as [im | ]; [ | discriminate Hpre ].
    destruct (write_error env k); [ discriminate Hpre | ].
    destruct (encode env "PNG" im) as [data | ]; [ | discriminate Hpre ].
    simpl in Hpre. destruct (IH _ Hpre) as (Hs & ws & post' & Hnames & Hne & Hf).
    simpl in Hs, Hf. split; [ exact Hs | ].
    exists ((k, data) :: ws), post'. simpl. repeat split; auto.
    now rewrite Hnames.
Qed.

Lemma main_body_raise size w w' e :
  main_body env size w = (w', Raise e) ->
  stdout w' = stdout w /\
  exists ws post, (map fst ws ++ post)%list = save_names size /\ post <> [] /\
                  files w' = apply_writes ws (files w).
Proof.
  rewrite main_body_eq. unfold bind.
  pose proof (create_terminal_icon_quiet env size w) as [Hf Hs].
  destruct (create_terminal_icon env size w) as [wa [icon | ea]] eqn:Hdraw;
    simpl in Hf, Hs.
  - intros Hsave. apply save_all_raise in Hsave.
    now rewrite Hf, Hs in Hsave.
  - intros Hrun. inversion Hrun; subst. split; [ exact Hs | ].
    exists [], (save_names size). rewrite Hf. repeat split; auto;
      unfold save_names; discriminate.
Qed.

(** The listing loop up to the first line that cannot be printed. *)
Lemma report_raise names : forall w w' e,
  for_each names (fun f => if endswith f ".png" then print env ("  " +:+ f) else ret tt) w
  = (w', Raise e) ->
  heap w' = heap w /\ files w' = files w /\
  exists printed more,
    report_lines names = (printed ++ more)%list /\
    stdout w' = (stdout w ++ printed)%list.
Proof.
  induction names as [ | f names IH ]; intros w w' e Hrun; simpl in Hrun.
  - discriminate Hrun.
  - unfold bind in Hrun. unfold report_lines, is_png. simpl.
    destruct (endswith f ".png") eqn:Hpng; simpl in *.
    + rewrite print_run in Hrun.
      destruct (print_error env ("  " +:+ f)) eqn:Hf.
      * inversion Hrun; subst; simpl. repeat split.
        eexists [], _. split; [ reflexivity | now rewrite app_nil_r ].
      * apply IH in Hrun. destruct Hrun as (Hh & Hfl & printed & more & Hl & Hs).
        simpl in *. repeat split; auto.
        exists (("  " +:+ f) :: printed), more. split.
        -- simpl. f_equal. exact Hl.
        -- rewrite Hs, <- app_assoc. reflexivity.
    + apply IH in Hrun. exact Hrun.
Qed.

(** A run of [main] that raises does so in the loop, or in the report after
    the loop has returned. *)
Lemma main_raise_cases w w' e :
  main env w = (w', Raise e) ->
  for_each sizes (main_body env) w = (w', Raise e)
  \/ exists w6,
       for_each sizes (main_body env) w = (w6, Ok tt) /\
       files w' = files w6 /\
       exists printed more,
         (banner ++ report_lines (map fst (map_to_list (files w6))))%list
         = (printed ++ more)%list /\
         stdout w' = (stdout w6 ++ printed)%list.
Proof.
  unfold main. unfold bind at 1.
  destruct (for_each sizes (main_body env) w) as [w6 [[] | e6]]; [ | auto ].
  intros Hrun. right. exists w6. split; [ reflexivity | ].
  unfold bind at 1 in Hrun. rewrite print_run in Hrun.
  destruct (print_error env "Icons created successfully!").
  { inversion Hrun; subst; simpl. split; [ reflexivity | ].
    eexists [], _. split; [ reflexivity | now rewrite app_nil_r ]. }
  unfold bind at 1 in Hrun. rewrite print_run in Hrun.
  destruct (print_error env "Files created:").
  { inversion Hrun; subst; simpl. split; [ reflexivity | ].
    eexists ["Icons created successfully!"], _. split; reflexivity. }
  unfold bind at 1 in Hrun. unfold os_listdir, bind, log in Hrun.
  destruct (listdir_error env).
  { inversion Hrun; subst; simpl. split; [ reflexivity | ].
    eexists banner, _. split; [ reflexivity | ].
    unfold banner. now rewrite <- app_assoc. }
  cbn [fst snd] in Hrun. apply report_raise in Hrun.
  destruct Hrun as (_ & Hf & printed & more & Hl & Hs).
  cbn [files stdout] in Hf, Hl, Hs.
  split; [ exact Hf | ].
  exists (banner ++ printed)%list, more. split.
  - rewrite Hl. now rewrite app_assoc.
  - rewrite Hs. unfold banner. rewrite <- !app_assoc. reflexivity.
Qed.

Lemma main_raise_writes w w' e :
  main env w = (w', Raise e) ->
  exists ws rest printed more,
    (map fst ws ++ rest)%list = output_files /\
    files w' = apply_writes ws (files w) /\
    stdout w' = (stdout w ++ printed)%list /\
    (banner ++ report_lines (map fst (map_to_list (files w'))))%list
    = (printed ++ more)%list /\
    (rest <> [] -> printed = []).
Proof.
  intros Hrun. apply main_raise_cases in Hrun as [Hrun | Hrun].
  - destruct (for_each_raise_inv _ _ _ _ _ Hrun)
      as (pre & size & post & w1 & Hsizes & Hpre & Hbody).
    destruct (loop_writes _ _ _ Hpre) as (Hs1 & ws1 & Hn1 & Hf1).
    destruct (main_body_raise _ _ _ _ Hbody) as (Hs2 & ws2 & rest & Hn2 & Hne & Hf2).
    exists (ws1 ++ ws2)%list, (rest ++ flat_map save_names post)%list.
    eexists [], _. repeat split.
    + rewrite <- output_files_eq, Hsizes, flat_map_app.
      change (flat_map save_names (size :: post))
        with (save_names size ++ flat_map save_names post)%list.
      rewrite map_app, Hn1, <- Hn2, <- !app_assoc. reflexivity.
    + now rewrite apply_writes_app, <- Hf1.
    + rewrite app_nil_r. congruence.
  - destruct Hrun as (w6 & Hloop & Hf & printed & more & Hl & Hs).
    destruct (loop_writes _ _ _ Hloop) as (Hs6 & ws & Hn & Hf6).
    exists ws, [], printed, more. repeat split.
    + now rewrite app_nil_r, Hn, output_files_eq.
    + congruence.
    + congruence.
    + now rewrite Hf.
    + intros Hne. now contradiction Hne.
Qed.

End Failing.

(** On a machine where [icon_64x64.png] cannot be written, [main] raises. *)
Lemma locked_main_raises :
  exists w', main (ref_env locked) empty_world = (w', Raise (Exn "PermissionError")).
Proof.
  destruct locked_run as (w1 & w2 & w4 & icon & Hpre & Hdraw & Hsave).
  exists w4. apply main_raise.
  apply (for_each_raise (main_body (ref_env locked)) [16; 32] 64 [128; 256; 512]
           empty_world w1 w4 tt _ Hpre).
  exact (main_body_raise_save (ref_env locked) 64 w1 w2 icon [] "icon_64x64.png" []
           w2 w4 tt _ Hdraw eq_refl eq_refl Hsave).
Qed.

(** X6. When [main] raises, it has removed nothing and what it had written
    stays in place: the directory has gained the first names of the output
    list, up to the failure, and files under other names are as they were.
    What it has printed is a first part of the report on the directory it
    leaves (the two banner lines, then the listing); and if an output name
    was still to be written when it failed, it has printed nothing: the
    success line only comes after all ten files. *)
Theorem main_failure_leaves_partial_output
    (env : Pillow) (w w' : World) (e : exn) :
  main env w = (w', Raise e) ->
  (forall n, n ∉ output_files -> files w' !! n = files w !! n) /\
  exists done rest printed more,
    output_files = (done ++ rest)%list /\
    dom (files w') = dom (files w) ∪ list_to_set done /\
    stdout w' = (stdout w ++ printed)%list /\
    (banner ++ report_lines (map fst (map_to_list (files w'))))%list
    = (printed ++ more)%list /\
    (rest <> [] -> printed = []).
Proof.
  intros Hrun.
  destruct (main_raise_writes env _ _ _ Hrun)
    as (ws & rest & printed & more & Hn & Hf & Hs & Hl & Hnone).
  split.
  - intros n Hnot. rewrite Hf. apply lookup_apply_writes_other.
    intros Hin. apply Hnot. rewrite <- Hn.
    apply list_elem_of_In, in_or_app. now left.
  - exists (map fst ws), rest, printed, more. repeat split; auto.
    rewrite Hf. apply dom_apply_writes.
Qed.

Lemma main_failure_leaves_partial_output_witness :
  exists w',
    main (ref_env locked) empty_world = (w', Raise (Exn "PermissionError")) /\
    (forall n, n ∉ output_files -> files w' !! n = files empty_world !! n) /\
    exists done rest printed more,
      output_files = (done ++ rest)%list /\
      dom (files w') = dom (files empty_world) ∪ list_to_set done /\
      stdout w' = (stdout empty_world ++ printed)%list /\
      (banner ++ report_lines (map fst (map_to_list (files w'))))%list
      = (printed ++ more)%list /\
      (rest <> [] -> printed = []).
Proof.
  destruct locked_main_raises as (w' & Hrun).
  exists w'. split; [ exact Hrun | ].
  exact (main_failure_leaves_partial_output (ref_env locked) empty_world w' _ Hrun).
Defined.

(** ** Where the shapes are placed *)

Ltac placed_side :=
  simpl; unfold ordered_box, right_of; simpl; auto;
  repeat match goal with
         | |- _ /\ _ => split
         | |- _ -> _ => intros ?
         end;
  try discriminate;
  try (eexists _, _, _, _; split; [ reflexivity | Z.div_mod_to_equations; lia ]);
  try (eexists; split; [ reflexivity | Z.div_mod_to_equations; lia ]).

Ltac placed_step :=
  eapply triple_seq;
  [ first [ apply Draw_triple | apply rounded_rectangle_triple
          | apply ellipse_triple | apply rectangle_triple
          | apply text_triple | apply select_font_triple
          | apply text_width_triple ];
    placed_side
  | cbv beta; intros ? ? ].

Lemma create_terminal_icon_placed env size w w' icon :
  create_terminal_icon env size w = (w', Ok icon) ->
  drawing env (placed_call size) w icon size w'.
Proof.
  intros Hrun.
  assert (Hwalk : triple (fun w0 => w0 = w) (create_terminal_icon env size)
                    (fun r w1 => drawing env (placed_call size) w r size w1)
                    (propagated env w)).
  { unfold create_terminal_icon. cbv zeta.
    eapply triple_bind;
      [ apply (Image_new_triple env (fun _ => placed_call size)) | ].
    intros img.
    do 13 placed_step.
    eapply triple_seq with (phi := fun _ => True).
    { eapply triple_try_except.
      - eapply triple_conseq;
          [ apply (truetype_triple env (placed_call size) w img size)
          | auto | | intros e w1 Hd; exact Hd ].
        + exact I.
        + intros f w1 (Hw & _). split; [ exact Hw | exact I ].
      - intros e. apply triple_pure_pre. intros _.
        apply triple_ret. intros w1 Hw. split; [ exact Hw | exact I ]. }
    intros logo_font _.
    placed_step.
    apply triple_ret. auto. }
  exact (triple_run _ _ _ _ _ _ _ Hwalk eq_refl Hrun).
Qed.

Lemma ref_refuses_inverted s :
  strict_boxes s = true -> refuses_inverted (ref_env s).
Proof.
  intros Hs x0 y0 x1 y1 radius fill outline width Hinv. simpl.
  unfold ref_rounded_rectangle, box_ok. rewrite Hs. simpl.
  destruct (x0 <=? x1) eqn:Hx; destruct (y0 <=? y1) eqn:Hy; simpl;
    try reflexivity.
  lia.
Qed.

Lemma ref_right_of_anchor s : right_of_anchor (ref_env s).
Proof.
  split.
  - intros xy fill m x y Hm [c Hc]. simpl in Hm. unfold ref_ellipse in Hm.
    destruct (box_ok (strict_boxes s) xy); [ | discriminate Hm ].
    inversion Hm; subst m; clear Hm. cbv beta zeta in Hc.
    destruct (in_box xy x y) eqn:Hin; [ | discriminate Hc ].
    unfold in_box in Hin. lia.
  - intros font text xy cov x y Hcov Hne. simpl in Hcov. unfold ref_text in Hcov.
    inversion Hcov; subst cov; clear Hcov. cbv beta zeta in Hne.
    destruct (ref_cell font) as [adv ht].
    destruct (py_trunc (fst xy) <=? x) eqn:Hx; [ lia | ].
    simpl in Hne. congruence.
Qed.

(** X7. With a library that refuses rounded rectangles whose corners are out
    of order, [create_terminal_icon] never returns for a size below 6: the
    title bar is asked for with its right edge [size - margin - 3] left of its
    left edge [margin + 3]. *)
Theorem small_sizes_are_refused (env : Pillow) (size : Z) (w : World) :
  refuses_inverted env -> size < 6 ->
  exists e, snd (create_terminal_icon env size w) = Raise e.
Proof.
  intros Hlaw Hsize.
  destruct (title_bar_refused env size w Hlaw Hsize) as (e & He).
  exists e. exact He.
Qed.

Lemma small_sizes_are_refused_witness :
  exists e, snd (create_terminal_icon (ref_env (strict linux)) 5 empty_world) = Raise e.
Proof.
  apply (small_sizes_are_refused (ref_env (strict linux)) 5 empty_world).
  - apply ref_refuses_inverted. reflexivity.
  - lia.
Defined.

(** X8. From 6 pixels on, every rounded rectangle and every ellipse
    [create_terminal_icon] asks for has integer corners in order
    ([x0 <= x1] and [y0 <= y1]). *)
Theorem shapes_have_ordered_corners
    (env : Pillow) (size : Z) (w w' : World) (icon : ref) :
  6 <= size ->
  create_terminal_icon env size w = (w', Ok icon) ->
  exists D,
    trace w' = (trace w ++ EvImageNew icon "RGBA" size size (0, 0, 0, 0) :: D)%list /\
    Forall ordered_call D.
Proof.
  intros Hsize Hrun.
  destruct (create_terminal_icon_placed _ _ _ _ _ Hrun)
    as (_ & _ & _ & _ & img & D & _ & _ & _ & _ & Ht & HD & _).
  exists D. split; [ exact Ht | ].
  eapply Forall_impl; [ exact HD | ].
  intros ev Hev. destruct ev; simpl in *; try exact I.
  - apply Hev. lia.
  - apply (proj1 Hev). lia.
Qed.

Lemma shapes_have_ordered_corners_witness :
  exists D,
    trace (fst (create_terminal_icon (ref_env linux) 16 empty_world))
      = (trace empty_world ++ EvImageNew 0%nat "RGBA" 16 16 (0, 0, 0, 0) :: D)%list /\
    Forall ordered_call D.
Proof.
  assert (Hres : snd (create_terminal_icon (ref_env linux) 16 empty_world) = Ok 0%nat)
    by (vm_compute; reflexivity).
  destruct (create_terminal_icon (ref_env linux) 16 empty_world) as [w' res] eqn:Hrun.
  simpl in Hres. subst res. simpl.
  exact (shapes_have_ordered_corners (ref_env linux) 16 empty_world w' 0%nat
           ltac:(lia) Hrun).
Defined.

(** X9. On an icon of at most 22 pixels the control dots and the texts
    placed at column [margin + 20] (the prompt, the AI line and the logo) lie
    to the right of the canvas: with a library that writes nothing left of an
    ellipse's box or of a text's anchor, none of these calls covers a pixel
    of a column below [size]. *)
Theorem small_icon_shows_no_controls
    (env : Pillow) (size : Z) (w w' : World) (icon : ref) :
  right_of_anchor env -> size <= 22 ->
  create_terminal_icon env size w = (w', Ok icon) ->
  exists D,
    trace w' = (trace w ++ EvImageNew icon "RGBA" size size (0, 0, 0, 0) :: D)%list /\
    Forall (fun ev => fixed_shape ev = true ->
                      forall x y, x < size -> covers env ev x y = false) D.
Proof.
  intros [Hell Htxt] Hsize Hrun.
  destruct (create_terminal_icon_placed _ _ _ _ _ Hrun)
    as (_ & _ & _ & _ & img & D & _ & _ & _ & _ & Ht & HD & _).
  exists D. split; [ exact Ht | ].
  eapply Forall_impl; [ exact HD | ].
  intros ev Hev Hfixed x y Hx. destruct ev; simpl in *; try discriminate.
  - destruct Hev as [_ Hright]. destruct (Hright Hsize) as (x0 & Hx0 & Hle).
    destruct (ellipse_mask env xy fill) as [m | e] eqn:Hm; [ | reflexivity ].
    destruct (m x y) as [c | ] eqn:Hc; [ | reflexivity ].
    assert (Hb : py_trunc (bx0 xy) <= x) by (eapply Hell; eauto).
    rewrite Hx0 in Hb. simpl in Hb. lia.
  - apply negb_true_iff in Hfixed.
    destruct (Hev Hfixed Hsize) as (x0 & Hx0 & Hle).
    destruct (text_mask env font text xy) as [cov | e] eqn:Hm; [ | reflexivity ].
    destruct (cov x y =? 0) eqn:Hc; [ reflexivity | ].
    assert (Hb : py_trunc (fst xy) <= x).
    { eapply Htxt; [ exact Hm | ]. apply Z.eqb_neq. exact Hc. }
    rewrite Hx0 in Hb. simpl in Hb. lia.
Qed.

Lemma small_icon_shows_no_controls_witness :
  exists D,
    trace (fst (create_terminal_icon (ref_env linux) 16 empty_world))
      = (trace empty_world ++ EvImageNew 0%nat "RGBA" 16 16 (0, 0, 0, 0) :: D)%list /\
    Forall (fun ev => fixed_shape ev = true ->
                      forall x y, x < 16 -> covers (ref_env linux) ev x y = false) D.
Proof.
  assert (Hres : snd (create_terminal_icon (ref_env linux) 16 empty_world) = Ok 0%nat)
    by (vm_compute; reflexivity).
  destruct (create_terminal_icon (ref_env linux) 16 empty_world) as [w' res] eqn:Hrun.
  simpl in Hres. subst res. simpl.
  exact (small_icon_shows_no_controls (ref_env linux) 16 empty_world w' 0%nat
           (ref_right_of_anchor linux) ltac:(lia) Hrun).
Defined.
